(** * redis_basic: a data cache and a page cache over a key-value store

    Shallow embedding of [0x02-redis_basic/exercise.py] and
    [0x02-redis_basic/web.py].

    The two Python modules are glue code over three libraries: the Python
    builtins ([str], [bytes], [int], [repr], [uuid]), the redis-py client
    with the Redis server behind it, and [requests].  The embedding keeps
    the code of the two modules as it is written and gives each library
    call the behaviour the library documents:

    - [Py]      Python values, UTF-8, [int()], [repr()], [uuid4], exceptions
                and the state-and-exception monad the programs run in;
    - [Redis]   the server: a keyspace with expiry, a clock and the log of
                the commands it received;
    - [Client]  redis-py: argument encoding, one method per command used;
    - [Exercise] exercise.py;
    - [Web]     web.py. *)

From Stdlib Require Import ZArith NArith Lia List Bool Ascii String.
From Stdlib Require Import DecimalString DecimalZ.
From stdpp Require Import gmap strings list fin_maps.

Set Default Proof Using "Type".

(** Byte strings ([bytes] in Python, a Redis key or value on the wire) are
    Rocq strings: sequences of 8-bit characters. *)
Abbreviation bytes := string (only parsing).

(** Python text ([str]) is a sequence of code points.  A [str] may hold
    lone surrogates, which is why encoding it can fail. *)
Abbreviation str := (list N) (only parsing).

Module Py.

(** ** Text and bytes *)

(** A text literal of the source, character by character. *)
Definition lit (s : bytes) : str := map N_of_ascii (list_ascii_of_string s).

Definition is_surrogate (c : N) : bool := ((0xD800 <=? c) && (c <=? 0xDFFF))%N.

(** The code points UTF-8 can carry: up to U+10FFFF, surrogates excluded. *)
Definition is_scalar (c : N) : bool := ((c <? 0x110000) && negb (is_surrogate c))%N.

Definition utf8_char (c : N) : list N :=
  (if c <? 0x80 then [c]
   else if c <? 0x800 then [0xC0 + c / 64; 0x80 + c mod 64]
   else if c <? 0x10000 then
     [0xE0 + c / 4096; 0x80 + (c / 64) mod 64; 0x80 + c mod 64]
   else
     [0xF0 + c / 262144; 0x80 + (c / 4096) mod 64;
      0x80 + (c / 64) mod 64; 0x80 + c mod 64])%N.

Definition pack (bs : list N) : bytes :=
  string_of_list_ascii (map ascii_of_N bs).

Definition unpack (b : bytes) : list N :=
  map N_of_ascii (list_ascii_of_string b).

(** [s.encode('utf-8')] with the default strict error handler: [None]
    stands for UnicodeEncodeError. *)
Definition str_encode (s : str) : option bytes :=
  if forallb is_scalar s then Some (pack (flat_map utf8_char s)) else None.

Definition is_cont (b : N) : bool := ((0x80 <=? b) && (b <? 0xC0))%N.

(** The strict UTF-8 decoder: overlong forms, surrogates, values above
    U+10FFFF and truncated sequences are refused. *)
Fixpoint utf8_decode (bs : list N) : option str :=
  match bs with
  | [] => Some []
  | b0 :: r0 =>
    if (b0 <? 0x80)%N then cons b0 <$> utf8_decode r0
    else if (b0 <? 0xC2)%N then None
    else if (b0 <? 0xE0)%N then
      match r0 with
      | b1 :: r1 =>
        if is_cont b1
        then cons ((b0 - 0xC0) * 64 + (b1 - 0x80))%N <$> utf8_decode r1
        else None
      | _ => None
      end
    else if (b0 <? 0xF0)%N then
      match r0 with
      | b1 :: b2 :: r2 =>
        let c := ((b0 - 0xE0) * 4096 + (b1 - 0x80) * 64 + (b2 - 0x80))%N in
        if is_cont b1 && is_cont b2 && (0x800 <=? c)%N && negb (is_surrogate c)
        then cons c <$> utf8_decode r2
        else None
      | _ => None
      end
    else if (b0 <? 0xF5)%N then
      match r0 with
      | b1 :: b2 :: b3 :: r3 =>
        let c := ((b0 - 0xF0) * 262144 + (b1 - 0x80) * 4096
                  + (b2 - 0x80) * 64 + (b3 - 0x80))%N in
        if is_cont b1 && is_cont b2 && is_cont b3
           && (0x10000 <=? c)%N && (c <? 0x110000)%N
        then cons c <$> utf8_decode r3
        else None
      | _ => None
      end
    else None
  end.

(** [b.decode('utf-8')]: [None] stands for UnicodeDecodeError. *)
Definition bytes_decode (b : bytes) : option str := utf8_decode (unpack b).

(** ** Integers as text *)

(** [repr(n)] of an [int]: its decimal digits, with [-] when negative. *)
Definition int_repr (z : Z) : bytes := NilZero.string_of_int (Z.to_int z).

Definition is_space (a : ascii) : bool :=
  match N_of_ascii a with
  | 9 | 10 | 11 | 12 | 13 | 32 => true
  | _ => false
  end%N.

Definition is_digit (a : ascii) : bool :=
  let n := N_of_ascii a in ((48 <=? n) && (n <=? 57))%N.

Fixpoint lstrip (s : bytes) : bytes :=
  match s with
  | String a r => if is_space a then lstrip r else s
  | EmptyString => EmptyString
  end.

Fixpoint rstrip (s : bytes) : bytes :=
  match s with
  | EmptyString => EmptyString
  | String a r =>
    match rstrip r with
    | EmptyString => if is_space a then EmptyString else String a EmptyString
    | r' => String a r'
    end
  end.

(** The digits of an integer literal, with the single underscores Python
    allows between two digits taken out.  [after_digit] tells whether the
    previous character was a digit. *)
Fixpoint digit_run (after_digit : bool) (s : bytes) : option bytes :=
  match s with
  | EmptyString => if after_digit then Some EmptyString else None
  | String a r =>
    if is_digit a then String a <$> digit_run true r
    else if Ascii.eqb a "_" && after_digit then digit_run false r
    else None
  end.

(** [int(b)] for a [bytes] argument, base 10: surrounding whitespace, an
    optional sign, digits with single underscores between them.  [None]
    stands for ValueError. *)
Definition int_of_bytes (b : bytes) : option Z :=
  let magnitude (s : bytes) : option Z :=
    ds ← digit_run false s; Z.of_uint <$> NilZero.uint_of_string ds in
  match rstrip (lstrip b) with
  | EmptyString => None
  | String a r as s =>
    if Ascii.eqb a "-" then Z.opp <$> magnitude r
    else if Ascii.eqb a "+" then magnitude r
    else magnitude s
  end.

(** ** repr *)

Definition backslash : ascii := ascii_of_N 92.

Definition dquote : ascii := ascii_of_N 34.

(** A backslash escape: the backslash and what follows it. *)
Definition esc (s : bytes) : bytes := String backslash s.

Definition hex_digit (n : N) : ascii :=
  ascii_of_N (if (n <? 10)%N then 48 + n else 87 + n)%N.

(** The [w] low-order hexadecimal digits of [n], most significant first:
    ['%0wx' % n] for [n] below [16^w]. *)
Fixpoint hex_fixed (w : nat) (n : N) : bytes :=
  match w with
  | O => EmptyString
  | S w' => hex_fixed w' (n / 16) +:+ String (hex_digit (n mod 16)) EmptyString
  end.

Definition has_byte (a : ascii) (b : bytes) : bool :=
  existsb (Ascii.eqb a) (list_ascii_of_string b).

(** The quote [repr] picks: the double quote when the text has a single
    quote and no double quote, the single quote otherwise. *)
Definition pick_quote (has_single has_double : bool) : ascii :=
  if has_single && negb has_double then dquote else "'"%char.

Definition bytes_repr_char (quote : ascii) (a : ascii) : bytes :=
  let n := N_of_ascii a in
  if Ascii.eqb a quote || Ascii.eqb a backslash then esc (String a EmptyString)
  else if (n =? 9)%N then esc "t"
  else if (n =? 10)%N then esc "n"
  else if (n =? 13)%N then esc "r"
  else if (n <? 32)%N || (127 <=? n)%N then esc ("x" +:+ hex_fixed 2 n)
  else String a EmptyString.

(** [repr(b)] of a [bytes] value, as CPython prints it. *)
Definition bytes_repr (b : bytes) : bytes :=
  let quote := pick_quote (has_byte "'" b) (has_byte dquote b) in
  "b" +:+ String quote
    (String.concat EmptyString (map (bytes_repr_char quote) (list_ascii_of_string b))
     +:+ String quote EmptyString).

(** Python's table of printable code points (the Unicode database behind
    [str.isprintable]); the programs only consult it through [repr]. *)
Class UnicodeData := isprintable : N -> bool.

Section Repr.
Context `{UnicodeData}.

Definition str_repr_char (quote : N) (c : N) : str :=
  if (c =? quote)%N || (c =? 92)%N then [92%N; c]
  else if (c =? 9)%N then lit (esc "t")
  else if (c =? 10)%N then lit (esc "n")
  else if (c =? 13)%N then lit (esc "r")
  else if (c <? 32)%N || (c =? 127)%N then lit (esc ("x" +:+ hex_fixed 2 c))
  else if (c <? 127)%N then [c]
  else if isprintable c then [c]
  else if (c <=? 0xFF)%N then lit (esc ("x" +:+ hex_fixed 2 c))
  else if (c <=? 0xFFFF)%N then lit (esc ("u" +:+ hex_fixed 4 c))
  else lit (esc ("U" +:+ hex_fixed 8 c)).

(** [repr(s)] of a [str]. *)
Definition str_repr (s : str) : str :=
  let quote :=
    N_of_ascii (pick_quote (existsb (N.eqb 39) s) (existsb (N.eqb 34) s)) in
  quote :: flat_map (str_repr_char quote) s ++ [quote].

End Repr.

(** ** Values *)

(** A Python [float] is carried by its [repr], the shortest decimal text
    that reads back as the same float; that text is the only view of a
    float the programs take ([repr(value)] in the client's encoder and in
    [str(args)]). *)
Record float := Float { float_repr : bytes }.

(** The values the cache handles: [None] and the four scalar types of
    [Union[str, bytes, int, float]]. *)
Inductive value :=
| VNone
| VStr (s : str)
| VBytes (b : bytes)
| VInt (z : Z)
| VFloat (f : float).

Section ValueRepr.
Context `{UnicodeData}.

Definition repr (v : value) : str :=
  match v with
  | VNone => lit "None"
  | VStr s => str_repr s
  | VBytes b => lit (bytes_repr b)
  | VInt z => lit (int_repr z)
  | VFloat f => lit (float_repr f)
  end.

Fixpoint join (sep : str) (parts : list str) : str :=
  match parts with
  | [] => []
  | [p] => p
  | p :: rest => p ++ sep ++ join sep rest
  end.

(** [str(args)] for a tuple of positional arguments. *)
Definition tuple_str (args : list value) : str :=
  match args with
  | [a] => lit "(" ++ repr a ++ lit ",)"
  | _ => lit "(" ++ join (lit ", ") (map repr args) ++ lit ")"
  end.

End ValueRepr.

(** ** uuid *)

(** [uuid.uuid4()] from sixteen random bytes read as a big-endian number:
    the variant and version bits are forced, the rest is kept. *)
Definition uuid4_int (random : N) : N :=
  let i := (random mod 2 ^ 128)%N in
  let i := N.ldiff i (N.shiftl 0xc000 48) in
  let i := N.lor i (N.shiftl 0x8000 48) in
  let i := N.ldiff i (N.shiftl 0xf000 64) in
  N.lor i (N.shiftl 4 76).

(** [str(u)]: thirty-two hexadecimal digits in groups of 8-4-4-4-12. *)
Definition uuid_str (i : N) : bytes :=
  let hex := hex_fixed 32 i in
  substring 0 8 hex +:+ "-" +:+ substring 8 4 hex +:+ "-"
  +:+ substring 12 4 hex +:+ "-" +:+ substring 16 4 hex +:+ "-"
  +:+ substring 20 12 hex.

(** ** Exceptions and the monad of effects *)

Inductive exn :=
| TypeError
| AttributeError
| ValueError
| UnicodeEncodeError
| UnicodeDecodeError
| DataError
| ResponseError (msg : bytes)
| RequestException (message : str).

Inductive outcome (A : Type) :=
| Return (a : A)
| Raise (e : exn).
Arguments Return {A} a.
Arguments Raise {A} e.

(** A computation over a state [S]: it ends with a value or an exception,
    and the effects done before the exception stay done. *)
Definition M (S A : Type) : Type := S -> outcome A * S.

Definition ret {S A} (a : A) : M S A := fun w => (Return a, w).

Definition raise {S A} (e : exn) : M S A := fun w => (Raise e, w).

Definition bind {S A B} (m : M S A) (k : A -> M S B) : M S B :=
  fun w =>
    match m w with
    | (Return a, w') => k a w'
    | (Raise e, w') => (Raise e, w')
    end.

(** A step that touches no state. *)
Definition lift {S A} (r : outcome A) : M S A := fun w => (r, w).

(** [encode], [decode] and [int] as they act inside a program. *)
Definition encode_str (s : str) : outcome bytes :=
  match str_encode s with
  | Some b => Return b
  | None => Raise UnicodeEncodeError
  end.

Definition encode {S} (s : str) : M S bytes := lift (encode_str s).

Definition decode {S} (b : bytes) : M S str :=
  match bytes_decode b with
  | Some s => ret s
  | None => raise UnicodeDecodeError
  end.

(** [int(x)] for what a read of the store returned: [None] is a
    TypeError, bytes that do not read as an integer a ValueError. *)
Definition int_ {S} (x : option bytes) : M S Z :=
  match x with
  | None => raise TypeError
  | Some b =>
    match int_of_bytes b with
    | Some z => ret z
    | None => raise ValueError
    end
  end.

(** [x.decode('utf-8')]: [None] has no such method. *)
Definition decode_ {S} (x : option bytes) : M S str :=
  match x with
  | None => raise AttributeError
  | Some b => decode b
  end.

End Py.

Import Py.

Declare Scope py_scope.
Open Scope py_scope.

Notation "x <- m ;; k" := (bind m (fun x => k))
  (at level 20, m at level 99, k at level 200, only parsing) : py_scope.
Notation "m ;; k" := (bind m (fun _ => k))
  (at level 100, k at level 200, right associativity, only parsing) : py_scope.

(** * The Redis server *)

Module Redis.

Inductive rvalue :=
| RString (b : bytes)
| RList (l : list bytes).

(** A key's value and, when it has one, the time at which it expires. *)
Record entry := Entry { e_value : rvalue; e_expire : option Z }.

(** The commands the two programs send. *)
Inductive command :=
| SET (k v : bytes)
| GET (k : bytes)
| INCR (k : bytes)
| EXISTS (k : bytes)
| RPUSH (k v : bytes)
| LRANGE (k : bytes) (start stop : Z)
| SETEX (k : bytes) (seconds : Z) (v : bytes)
| FLUSHDB (async : bool).

(** The server: the keyspace of the selected database, the clock, and the
    commands received so far, oldest first. *)
Record server := Server {
  db : gmap string entry;
  now : Z;
  log : list command
}.

Definition received (c : command) (s : server) : server :=
  Server (db s) (now s) (log s ++ [c]).

Definition with_db (d : gmap string entry) (s : server) : server :=
  Server d (now s) (log s).

(** Time passing on the server's clock. *)
Definition elapse (d : Z) (s : server) : server :=
  Server (db s) (now s + d) (log s).

(** A key is expired once the clock is past its expiry time; an expired
    key is as good as absent for every command. *)
Definition expired (t : Z) (e : entry) : bool :=
  match e_expire e with
  | Some at_ => (at_ <? t)%Z
  | None => false
  end.

Definition lookup (k : bytes) (s : server) : option entry :=
  match db s !! k with
  | Some e => if expired (now s) e then None else Some e
  | None => None
  end.

(** A reply is an error message or a result. *)
Definition reply (A : Type) : Type := (bytes + A)%type.

Definition WRONGTYPE : bytes :=
  "WRONGTYPE Operation against a key holding the wrong kind of value".

Definition LLONG_MAX : Z := 9223372036854775807.
Definition LLONG_MIN : Z := -9223372036854775808.

(** The server's reading of a value as a 64-bit integer: exactly the
    canonical decimal form of a number in range (no sign [+], no leading
    zero, no space). *)
Definition string2ll (b : bytes) : option Z :=
  match NilZero.int_of_string b with
  | Some d =>
    let z := Z.of_int d in
    if String.eqb (int_repr z) b && (LLONG_MIN <=? z)%Z && (z <=? LLONG_MAX)%Z
    then Some z else None
  | None => None
  end.

Definition set (k v : bytes) (s : server) : reply unit * server :=
  let s := received (SET k v) s in
  (inr tt, with_db (<[k := Entry (RString v) None]> (db s)) s).

Definition get (k : bytes) (s : server) : reply (option bytes) * server :=
  let s := received (GET k) s in
  match lookup k s with
  | None => (inr None, s)
  | Some (Entry (RString b) _) => (inr (Some b), s)
  | Some (Entry (RList _) _) => (inl WRONGTYPE, s)
  end.

(** INCR: an absent key counts as 0; the new value replaces the old one
    and keeps the key's expiry. *)
Definition incr (k : bytes) (s : server) : reply Z * server :=
  let s := received (INCR k) s in
  match lookup k s with
  | None => (inr 1%Z, with_db (<[k := Entry (RString (int_repr 1)) None]> (db s)) s)
  | Some (Entry (RString b) ex) =>
    match string2ll b with
    | Some n =>
      if (n =? LLONG_MAX)%Z
      then (inl "ERR increment or decrement would overflow", s)
      else (inr (n + 1)%Z,
            with_db (<[k := Entry (RString (int_repr (n + 1))) ex]> (db s)) s)
    | None => (inl "ERR value is not an integer or out of range", s)
    end
  | Some (Entry (RList _) _) => (inl WRONGTYPE, s)
  end.

Definition exists_ (k : bytes) (s : server) : reply Z * server :=
  let s := received (EXISTS k) s in
  match lookup k s with
  | None => (inr 0%Z, s)
  | Some _ => (inr 1%Z, s)
  end.

(** RPUSH: an absent key starts an empty list; replies the new length. *)
Definition rpush (k v : bytes) (s : server) : reply Z * server :=
  let s := received (RPUSH k v) s in
  match lookup k s with
  | None => (inr 1%Z, with_db (<[k := Entry (RList [v]) None]> (db s)) s)
  | Some (Entry (RList l) ex) =>
    (inr (Z.of_nat (length (l ++ [v]))),
     with_db (<[k := Entry (RList (l ++ [v])) ex]> (db s)) s)
  | Some (Entry (RString _) _) => (inl WRONGTYPE, s)
  end.

(** The elements of [l] from index [start] to index [stop], both
    inclusive, negative indexes counting from the end. *)
Definition range {A} (start stop : Z) (l : list A) : list A :=
  let llen := Z.of_nat (length l) in
  let start := if (start <? 0)%Z then (llen + start)%Z else start in
  let stop := if (stop <? 0)%Z then (llen + stop)%Z else stop in
  let start := if (start <? 0)%Z then 0%Z else start in
  if (stop <? start)%Z || (llen <=? start)%Z then []
  else
    let stop := if (llen <=? stop)%Z then (llen - 1)%Z else stop in
    take (Z.to_nat (stop - start + 1)) (drop (Z.to_nat start) l).

Definition lrange (k : bytes) (start stop : Z) (s : server)
  : reply (list bytes) * server :=
  let s := received (LRANGE k start stop) s in
  match lookup k s with
  | None => (inr [], s)
  | Some (Entry (RList l) _) => (inr (range start stop l), s)
  | Some (Entry (RString _) _) => (inl WRONGTYPE, s)
  end.

(** SETEX: the value with an expiry [seconds] from now. *)
Definition setex (k : bytes) (seconds : Z) (v : bytes) (s : server)
  : reply unit * server :=
  let s := received (SETEX k seconds v) s in
  if (seconds <=? 0)%Z
  then (inl "ERR invalid expire time in 'setex' command", s)
  else (inr tt,
        with_db (<[k := Entry (RString v) (Some (now s + seconds)%Z)]> (db s)) s).

(** FLUSHDB: the keyspace is detached at once in both modes; they differ
    in when the server reclaims the memory (inline, or in the background
    with ASYNC), which no client can observe through the keyspace. *)
Definition flushdb (async : bool) (s : server) : reply unit * server :=
  let s := received (FLUSHDB async) s in
  (inr tt, with_db ∅ s).

End Redis.

(** * The process and its surroundings *)

(** An HTTP response, as [requests] presents it. *)
Record response := {
  status_code : Z;
  reason : str;
  url : str;
  text : str
}.

(** What a request comes to: a [RequestException] (connection refused,
    timeout, malformed url, ...) with its message, or a response.
    [latency] is the time the exchange took. *)
Inductive exchange :=
| Failed (message : str) (latency : N)
| Answered (r : response) (latency : N).

(** Everything outside the two modules that their code reads or changes:
    the Redis server every default client connects to, the random source
    behind [uuid4], the standard output, and the network.  [network n u]
    is what the [n]-th request made by the process yields when it asks
    for [u]; [requested] lists the urls asked for so far. *)
Record world := World {
  redis : Redis.server;
  entropy : nat -> N;
  draws : nat;
  stdout : list str;
  network : nat -> str -> exchange;
  requested : list str
}.

Abbreviation IO := (M world).

Definition with_redis (s : Redis.server) (w : world) : world :=
  World s (entropy w) (draws w) (stdout w) (network w) (requested w).

(** [time.sleep], or any stretch of time between two calls. *)
Definition sleep (d : Z) : IO unit :=
  fun w => (Return tt, with_redis (Redis.elapse d (redis w)) w).

(** Sixteen bytes of [os.urandom], as a number. *)
Definition urandom16 : IO N :=
  fun w =>
    (Return (entropy w (draws w)),
     World (redis w) (entropy w) (S (draws w)) (stdout w) (network w)
           (requested w)).

Definition uuid4 : IO N := r <- urandom16;; ret (uuid4_int r).

Definition print (line : str) : IO unit :=
  fun w =>
    (Return tt,
     World (redis w) (entropy w) (draws w) (stdout w ++ [line]) (network w)
           (requested w)).

(** * redis-py *)

Module Client.

(** [Encoder.encode]: bytes go as they are, numbers as their [repr], text
    as UTF-8; anything else is a DataError. *)
Definition encoder_encode (v : value) : outcome bytes :=
  match v with
  | VBytes b => Return b
  | VInt z => encode_str (lit (int_repr z))
  | VFloat f => encode_str (lit (float_repr f))
  | VStr s => encode_str s
  | VNone => Raise DataError
  end.

(** One round trip: an error reply is raised as ResponseError. *)
Definition execute_command {A}
    (c : Redis.server -> Redis.reply A * Redis.server) : IO A :=
  fun w =>
    match c (redis w) with
    | (inl msg, s) => (Raise (ResponseError msg), with_redis s w)
    | (inr a, s) => (Return a, with_redis s w)
    end.

Definition set (name : str) (v : value) : IO unit :=
  k <- encode name;; b <- lift (encoder_encode v);; execute_command (Redis.set k b).

Definition get (name : str) : IO (option bytes) :=
  k <- encode name;; execute_command (Redis.get k).

Definition incr (name : str) : IO Z :=
  k <- encode name;; execute_command (Redis.incr k).

Definition exists_ (name : str) : IO Z :=
  k <- encode name;; execute_command (Redis.exists_ k).

Definition rpush (name : str) (v : value) : IO Z :=
  k <- encode name;; b <- lift (encoder_encode v);; execute_command (Redis.rpush k b).

Definition lrange (name : str) (start stop : Z) : IO (list bytes) :=
  k <- encode name;; execute_command (Redis.lrange k start stop).

Definition setex (name : str) (time : Z) (v : value) : IO unit :=
  k <- encode name;; b <- lift (encoder_encode v);; execute_command (Redis.setex k time b).

(** [flushdb(asynchronous=False)]: the flag adds ASYNC to the command. *)
Definition flushdb (asynchronous : bool) : IO unit :=
  execute_command (Redis.flushdb asynchronous).

End Client.

(** * exercise.py *)

Module Exercise.

(** What an instance's [_redis] attribute holds: a [redis.Redis] client,
    or an object of another class, which passes no [isinstance] test and
    has none of the client's methods. *)
Inductive handle := RedisClient | NotRedis.

(** An object, as far as this module looks at it: its [_redis] attribute,
    [None] when it has none. *)
Record object := Object { _redis : option handle }.

(** A function or method with the [__qualname__] that [wraps] carries from
    the decorated function to its wrapper. *)
Record method := Method {
  __qualname__ : str;
  invoke : object -> list value -> list (str * value) -> IO value
}.

(** [self._redis] *)
Definition attr_redis (self : object) : IO handle :=
  match _redis self with
  | Some h => ret h
  | None => raise AttributeError
  end.

Definition isinstance_Redis (h : handle) : bool :=
  match h with RedisClient => true | NotRedis => false end.

(** A method call on [self._redis]. *)
Definition on_client {A} (h : handle) (call : IO A) : IO A :=
  match h with
  | RedisClient => call
  | NotRedis => raise AttributeError
  end.

Definition when (b : bool) (m : IO Z) : IO unit :=
  if b then m;; ret tt else ret tt.

Definition count_calls (m : method) : method :=
  Method (__qualname__ m)
    (fun self args kwargs =>
       r <- attr_redis self;;
       when (isinstance_Redis r) (Client.incr (__qualname__ m));;
       invoke m self args kwargs).

Section Instrumented.
Context `{UnicodeData}.

Definition call_history (m : method) : method :=
  Method (__qualname__ m)
    (fun self args kwargs =>
       let in_key := __qualname__ m ++ lit ":inputs" in
       let out_key := __qualname__ m ++ lit ":outputs" in
       r <- attr_redis self;;
       when (isinstance_Redis r) (Client.rpush in_key (VStr (tuple_str args)));;
       output <- invoke m self args kwargs;;
       r <- attr_redis self;;
       when (isinstance_Redis r) (Client.rpush out_key output);;
       ret output).

(** The binding of [store]'s one parameter, [data], from the call's
    positional and keyword arguments. *)
Definition bind_data (args : list value) (kwargs : list (str * value))
  : outcome value :=
  match args, kwargs with
  | [data], [] => Return data
  | [], [(name, data)] =>
    if decide (name = lit "data") then Return data else Raise TypeError
  | _, _ => Raise TypeError
  end.

(** The body of [Cache.store]. *)
Definition store_def : method :=
  Method (lit "Cache.store")
    (fun self args kwargs =>
       data <- lift (bind_data args kwargs);;
       u <- uuid4;;
       let data_key := lit (uuid_str u) in
       r <- attr_redis self;;
       on_client r (Client.set data_key data);;
       ret (VStr data_key)).

(** [@call_history @count_calls def store]: the decorators apply from the
    bottom up. *)
Definition store : method := call_history (count_calls store_def).

End Instrumented.

(** [Cache()] *)
Definition Cache : IO object :=
  let self := Object (Some RedisClient) in
  Client.flushdb true;;
  ret self.

Definition get (self : object) (key : str)
    (fn : option (option bytes -> IO value)) : IO value :=
  r <- attr_redis self;;
  data <- on_client r (Client.get key);;
  match fn with
  | Some f => f data
  | None => ret (match data with Some b => VBytes b | None => VNone end)
  end.

Definition get_str (self : object) (key : str) : IO value :=
  get self key (Some (fun x => s <- decode_ x;; ret (VStr s))).

Definition get_int (self : object) (key : str) : IO value :=
  get self key (Some (fun x => z <- int_ x;; ret (VInt z))).

(** What [replay] may be handed: [None], a callable with no [__self__]
    (a plain function), or a bound method. *)
Inductive callable :=
| CNone
| Function (qualname : str)
| BoundMethod (self : object) (qualname : str).

Fixpoint for_each {A} (l : list A) (body : A -> IO unit) : IO unit :=
  match l with
  | [] => ret tt
  | x :: rest => body x;; for_each rest body
  end.

(** ['{} was called {} times:'.format(fxn_name, fxn_call_count)] *)
Definition replay_header (fxn_name : str) (fxn_call_count : Z) : str :=
  fxn_name ++ lit " was called " ++ lit (int_repr fxn_call_count)
  ++ lit " times:".

(** The format of one call, the name, a parenthesis and a star, the
    decoded input, [) -> ] and the output; the output, a [bytes] value, is
    formatted as its [repr]. *)
Definition replay_line (fxn_name : str) (shown : str) (fxn_output : bytes)
  : str :=
  fxn_name ++ lit "(" ++ lit "*" ++ shown ++ lit ") -> "
  ++ lit (bytes_repr fxn_output).

Definition replay (fn : callable) : IO unit :=
  match fn with
  | CNone | Function _ => ret tt
  | BoundMethod self fxn_name =>
    match _redis self with
    | Some RedisClient =>
      let in_key := fxn_name ++ lit ":inputs" in
      let out_key := fxn_name ++ lit ":outputs" in
      present <- Client.exists_ fxn_name;;
      fxn_call_count <-
        (if negb (present =? 0)%Z
         then (x <- Client.get fxn_name;; int_ x)
         else ret 0%Z);;
      print (replay_header fxn_name fxn_call_count);;
      fxn_inputs <- Client.lrange in_key 0 (-1);;
      fxn_outputs <- Client.lrange out_key 0 (-1);;
      for_each (zip fxn_inputs fxn_outputs)
        (fun '(fxn_input, fxn_output) =>
           shown <- decode fxn_input;;
           print (replay_line fxn_name shown fxn_output))
    | _ => ret tt
    end
  end.

End Exercise.

(** * requests *)

Module Requests.

(** [requests.get(url)]: the next exchange with the network. *)
Definition get (u : str) : IO response :=
  fun w =>
    let asked :=
      World (redis w) (entropy w) (draws w) (stdout w) (network w)
            (requested w ++ [u]) in
    match network w (length (requested w)) u with
    | Failed message latency =>
      (Raise (RequestException message),
       with_redis (Redis.elapse (Z.of_N latency) (redis w)) asked)
    | Answered r latency =>
      (Return r, with_redis (Redis.elapse (Z.of_N latency) (redis w)) asked)
    end.

(** The message [raise_for_status] builds: one for the 4xx statuses, one
    for the 5xx statuses, none for the others. *)
Definition http_error_msg (r : response) : option str :=
  let msg (kind : bytes) : str :=
    lit (int_repr (status_code r)) ++ lit kind ++ reason r
    ++ lit " for url: " ++ url r in
  if (400 <=? status_code r)%Z && (status_code r <? 500)%Z
  then Some (msg " Client Error: ")
  else if (500 <=? status_code r)%Z && (status_code r <? 600)%Z
  then Some (msg " Server Error: ")
  else None.

(** [response.raise_for_status()]: when there is a message, an HTTPError,
    which is a RequestException, is raised with it. *)
Definition raise_for_status (r : response) : IO unit :=
  match http_error_msg r with
  | Some msg => raise (RequestException msg)
  | None => ret tt
  end.

End Requests.

(** * web.py *)

Module Web.

(** [try: body / except requests.RequestException as e: handler(str(e))] *)
Definition try_except {A} (body : IO A) (handler : str -> IO A) : IO A :=
  fun w =>
    match body w with
    | (Raise (RequestException message), w') => handler message w'
    | result => result
    end.

(** The truth value of what [redis_store.get] returns: [None] and the
    empty bytes are false. *)
Definition truthy (result : option bytes) : bool :=
  match result with
  | None | Some EmptyString => false
  | Some _ => true
  end.

Definition data_cacher (method : str -> IO str) : str -> IO str :=
  fun u =>
    Client.incr (lit "count:" ++ u);;
    result <- Client.get (lit "result:" ++ u);;
    if truthy result
    then decode_ result
    else
      result <- method u;;
      Client.setex (lit "result:" ++ u) 10 (VStr result);;
      ret result.

(** The body of [get_page]. *)
Definition get_page_def (u : str) : IO str :=
  try_except
    (response <- Requests.get u;;
     Requests.raise_for_status response;;
     ret (text response))
    (fun e => ret (lit "Error fetching the URL: " ++ e)).

Definition get_page : str -> IO str := data_cacher get_page_def.

End Web.


(** * Reading the state *)


(** The integer a key counts: an absent key counts 0, a string counts
    what the server reads in it, a list counts nothing. *)
Definition counter_at (k : bytes) (s : Redis.server) : option Z :=
  match Redis.lookup k s with
  | None => Some 0%Z
  | Some (Redis.Entry (Redis.RString b) _) => Redis.string2ll b
  | Some (Redis.Entry (Redis.RList _) _) => None
  end.

(** The list a key holds: an absent key is the empty list, a string is no
    list. *)
Definition list_at (k : bytes) (s : Redis.server) : option (list bytes) :=
  match Redis.lookup k s with
  | None => Some []
  | Some (Redis.Entry (Redis.RList l) _) => Some l
  | Some (Redis.Entry (Redis.RString _) _) => None
  end.

(** How the client reports a reply. *)
Definition reported {A} (r : Redis.reply A) : outcome A :=
  match r with
  | inl msg => Raise (ResponseError msg)
  | inr a => Return a
  end.

(** The instance [Cache()] returns, and the keys [store] is instrumented
    under. *)
Definition cache : Exercise.object := Exercise.Object (Some Exercise.RedisClient).

Definition store_key : bytes := "Cache.store".
Definition inputs_key : bytes := "Cache.store:inputs".
Definition outputs_key : bytes := "Cache.store:outputs".

(** The identifier [store] generates in a world. *)
Definition next_key (w : world) : bytes :=
  uuid_str (uuid4_int (entropy w (draws w))).

Definition drawn (s : Redis.server) (w : world) : world :=
  World s (entropy w) (S (draws w)) (stdout w) (network w) (requested w).

(** * Observing a run *)

(** The commands the server receives while [m] runs from [w]. *)
Definition commands_of {A} (m : IO A) (w : world) : list Redis.command :=
  drop (length (Redis.log (redis w))) (Redis.log (redis (m w).2)).

(** The four side effects of an instrumented [store] call, and the
    command that carries each. *)
Inductive effect :=
| InputLogged
| CounterIncremented
| OperationExecuted
| OutputLogged.

Definition effect_of (c : Redis.command) : option effect :=
  match c with
  | Redis.RPUSH k _ =>
    if String.eqb k inputs_key then Some InputLogged
    else if String.eqb k outputs_key then Some OutputLogged
    else None
  | Redis.INCR k =>
    if String.eqb k store_key then Some CounterIncremented else None
  | Redis.SET _ _ => Some OperationExecuted
  | _ => None
  end.

(** The order the code gives the four effects. *)
Definition effects_in_order : list (option effect) :=
  [Some InputLogged; Some CounterIncremented; Some OperationExecuted;
   Some OutputLogged].


(** A caller storing one value after the other and keeping the
    identifiers; the first exception ends it. *)
Fixpoint store_each `{UnicodeData} (self : Exercise.object)
    (datas : list value) : IO (list value) :=
  match datas with
  | [] => ret []
  | data :: rest =>
    key <- Exercise.invoke Exercise.store self [data] [];;
    keys <- store_each self rest;;
    ret (key :: keys)
  end.


(** ** Concrete surroundings, for the examples *)

(** A table that knows the printable ASCII characters and nothing else;
    it agrees with Python's on ASCII and on the surrogates. *)
Definition ascii_printable : UnicodeData :=
  fun c => ((32 <=? c) && (c <? 127))%N.

(** A server that answers every request with the page [body]. *)
Definition serving (body : str) : nat -> str -> exchange :=
  fun _ u => Answered {| status_code := 200; reason := lit "OK"; url := u;
                         text := body |} 1.

(** A process starting against an empty server. *)
Definition boot (net : nat -> str -> exchange) : world :=
  World (Redis.Server ∅ 0 []) (fun n => (1000003 * N.of_nat n + 7)%N) 0 []
        net [].

(** The order the specification gives them: counter first. *)
Definition counter_first_order : list (option effect) :=
  [Some CounterIncremented; Some InputLogged; Some OperationExecuted;
   Some OutputLogged].



(** A fresh cache in which 42 has been stored once. *)
Definition stored_once : world :=
  (Exercise.invoke (@Exercise.store ascii_printable) cache [VInt 42] []
     (Exercise.Cache (boot (serving []))).2).2.

(** ** web.py *)

Definition count_key (ku : bytes) : bytes := "count:" +:+ ku.
Definition result_key (ku : bytes) : bytes := "result:" +:+ ku.

(** The access counter of a url: 0 for an absent key, the integer of a
    string that carries no expiry (the program never gives one to a
    counter). *)
Definition access_count (k : bytes) (s : Redis.server) : option Z :=
  match Redis.lookup k s with
  | None => Some 0%Z
  | Some (Redis.Entry (Redis.RString b) None) => Redis.string2ll b
  | Some _ => None
  end.

(** A cache miss, as the wrapper sees it: nothing under the key, or the
    empty string. *)
Definition miss (k : bytes) (s : Redis.server) : Prop :=
  Redis.lookup k s = None
  \/ exists ex, Redis.lookup k s = Some (Redis.Entry (Redis.RString EmptyString) ex).

(** The exchange the next request for [u] comes to. *)
Definition next_exchange (u : str) (w : world) : exchange :=
  network w (length (requested w)) u.

Definition latency_of (e : exchange) : Z :=
  match e with
  | Failed _ latency | Answered _ latency => Z.of_N latency
  end.

(** The message of the failure an exchange is, if it is one: the
    exception's own for a failed request, the one of [raise_for_status]
    for a response with a 4xx or 5xx status. *)
Definition failure_of (e : exchange) : option str :=
  match e with
  | Failed message _ => Some message
  | Answered r _ => Requests.http_error_msg r
  end.

(** What [get_page]'s body makes of an exchange: the formatted error
    for a failure, the text of the response otherwise. *)
Definition page_of (e : exchange) : str :=
  match failure_of e, e with
  | Some message, _ => lit "Error fetching the URL: " ++ message
  | None, Answered r _ => text r
  | None, Failed _ _ => []
  end.

(** The world once the request for [u] has been made. *)
Definition fetched (u : str) (w : world) : world :=
  World (Redis.elapse (latency_of (next_exchange u w)) (redis w))
        (entropy w) (draws w) (stdout w) (network w) (requested w ++ [u]).

(** Two calls for the same url, [d] apart. *)
Definition fetch_twice (u : str) (d : Z) : IO (str * str) :=
  first <- Web.get_page u;;
  sleep d;;
  second <- Web.get_page u;;
  ret (first, second).


(** The url of the examples. *)
Definition example_url : str := lit "http://example.org/".

(** The world after a first call that fetched an empty page. *)
Definition empty_cached : world :=
  (Web.get_page example_url (boot (serving []))).2.

(** ** Further observations *)

(** A byte string of ASCII characters only. *)
Definition is_ascii (s : bytes) : bool :=
  forallb (fun a => (N_of_ascii a <? 128)%N) (list_ascii_of_string s).

(** A computation that leaves the keyspace and the clock as they were,
    whatever it comes to. *)
Definition read_only {A} (m : IO A) : Prop :=
  forall w,
    Redis.db (redis (m w).2) = Redis.db (redis w)
    /\ Redis.now (redis (m w).2) = Redis.now (redis w).

(** The commands that only read. *)
Definition is_read (c : Redis.command) : bool :=
  match c with
  | Redis.GET _ | Redis.EXISTS _ | Redis.LRANGE _ _ _ => true
  | _ => false
  end.



(** * Facts about the builtins *)

(** Division and remainder by constants, for [lia]. *)
Ltac euclid := zify; Z.to_euclidean_division_equations; lia.

Ltac split_tests :=
  repeat match goal with
  | |- context [N.ltb ?a ?b] => destruct (N.ltb_spec a b); try (exfalso; euclid)
  | |- context [N.leb ?a ?b] => destruct (N.leb_spec a b); try (exfalso; euclid)
  end.

Lemma is_scalar_spec (c : N) :
  is_scalar c = true <->
  (c < 0x110000 /\ ~ (0xD800 <= c <= 0xDFFF))%N.
Proof.
  unfold is_scalar, is_surrogate.
  destruct (N.ltb_spec c 0x110000), (N.leb_spec 0xD800 c),
    (N.leb_spec c 0xDFFF); cbn; split; intros; try done; lia.
Qed.

Lemma unpack_pack (l : list N) :
  Forall (fun b => (b < 256)%N) l -> unpack (pack l) = l.
Proof.
  unfold unpack, pack. rewrite list_ascii_of_string_of_list_ascii.
  induction 1 as [|b l Hb _ IH]; cbn; [done|].
  rewrite N_ascii_embedding by done. by rewrite IH.
Qed.

Lemma utf8_char_bytes (c : N) :
  is_scalar c = true -> Forall (fun b => (b < 256)%N) (utf8_char c).
Proof.
  intros [Hc _]%is_scalar_spec. unfold utf8_char.
  split_tests; rewrite ?Forall_cons, Forall_nil; repeat split; euclid.
Qed.

(** One encoded character decodes to itself, whatever follows it. *)
Lemma utf8_decode_char (c : N) (rest : list N) :
  is_scalar c = true ->
  utf8_decode (utf8_char c ++ rest) = cons c <$> utf8_decode rest.
Proof.
  intros [Hc Hs]%is_scalar_spec. unfold utf8_char.
  destruct (N.ltb_spec c 0x80); [|destruct (N.ltb_spec c 0x800);
    [|destruct (N.ltb_spec c 0x10000)]];
    cbn [app utf8_decode]; unfold is_cont, is_surrogate; cbv zeta;
    split_tests; cbn [andb negb]; try done;
    f_equal; f_equal; euclid.
Qed.

Lemma utf8_decode_flat (s : str) :
  forallb is_scalar s = true -> utf8_decode (flat_map utf8_char s) = Some s.
Proof.
  induction s as [|c s IH]; cbn [forallb flat_map]; [done|].
  intros [Hc Hs]%andb_prop. rewrite utf8_decode_char, IH by done. done.
Qed.

Lemma flat_utf8_bytes (s : str) :
  forallb is_scalar s = true ->
  Forall (fun b => (b < 256)%N) (flat_map utf8_char s).
Proof.
  induction s as [|c s IH]; cbn [forallb flat_map]; [constructor|].
  intros [Hc Hs]%andb_prop. apply Forall_app; auto using utf8_char_bytes.
Qed.

(** UTF-8 round trip: what [encode] produced, [decode] reads back. *)
Lemma utf8_roundtrip (s : str) (b : bytes) :
  str_encode s = Some b -> bytes_decode b = Some s.
Proof.
  unfold str_encode, bytes_decode.
  destruct (forallb is_scalar s) eqn:Hs; [|done]. intros [= <-].
  rewrite unpack_pack by auto using flat_utf8_bytes.
  by apply utf8_decode_flat.
Qed.

Lemma str_encode_inj (s1 s2 : str) (b : bytes) :
  str_encode s1 = Some b -> str_encode s2 = Some b -> s1 = s2.
Proof.
  intros H1%utf8_roundtrip H2%utf8_roundtrip. congruence.
Qed.

(** ** Decimal text *)

Lemma digit_run_digits (d : Decimal.uint) (after_digit : bool) :
  d <> Decimal.Nil \/ after_digit = true ->
  digit_run after_digit (NilEmpty.string_of_uint d)
  = Some (NilEmpty.string_of_uint d).
Proof.
  revert after_digit.
  induction d as [|d IH|d IH|d IH|d IH|d IH|d IH|d IH|d IH|d IH|d IH];
    intros after_digit Hd;
    [destruct Hd as [Hd | ->]; [done | reflexivity] | ..];
    cbn [NilEmpty.string_of_uint digit_run];
    (change (is_digit _) with true; cbv iota; by rewrite IH by auto).
Qed.

Lemma rstrip_digits (d : Decimal.uint) :
  rstrip (NilEmpty.string_of_uint d) = NilEmpty.string_of_uint d.
Proof.
  induction d as [|d IH|d IH|d IH|d IH|d IH|d IH|d IH|d IH|d IH|d IH];
    [done | ..];
    cbn [NilEmpty.string_of_uint rstrip]; rewrite IH;
    by destruct (NilEmpty.string_of_uint d).
Qed.

Lemma string_of_uint_nonnil (d : Decimal.uint) :
  d <> Decimal.Nil -> NilZero.string_of_uint d = NilEmpty.string_of_uint d.
Proof. by destruct d. Qed.

(** The digits of a positive number read back as that number. *)
Lemma magnitude_digits (p : positive) :
  let s := NilZero.string_of_uint (Pos.to_uint p) in
  rstrip s = s /\ digit_run false s = Some s
  /\ NilZero.uint_of_string s = Some (Pos.to_uint p)
  /\ Z.of_uint (Pos.to_uint p) = Z.pos p
  /\ exists a r, s = String a r /\ is_digit a = true.
Proof.
  pose proof (DecimalPos.Unsigned.to_uint_nonnil p) as Hnil.
  cbv zeta. rewrite string_of_uint_nonnil by done.
  repeat split.
  - apply rstrip_digits.
  - apply digit_run_digits; auto.
  - rewrite <- string_of_uint_nonnil by done. by apply NilZero.usu.
  - unfold Z.of_uint. by rewrite DecimalPos.Unsigned.of_to.
  - destruct (Pos.to_uint p); [done | ..]; eexists _, _; by split.
Qed.

Lemma lstrip_nonspace (a : ascii) (r : bytes) :
  is_space a = false -> lstrip (String a r) = String a r.
Proof. intros Ha. cbn. by rewrite Ha. Qed.

Lemma rstrip_cons (a : ascii) (r : bytes) :
  rstrip r = r -> is_space a = false -> rstrip (String a r) = String a r.
Proof. intros Hr Ha. cbn [rstrip]. rewrite Hr, Ha. by destruct r. Qed.

Lemma is_digit_cases (a : ascii) :
  is_digit a = true ->
  is_space a = false /\ Ascii.eqb a "-" = false /\ Ascii.eqb a "+" = false.
Proof.
  destruct a as [[] [] [] [] [] [] [] []]; cbn; intros; by repeat split.
Qed.

(** [int] reads back what [repr] printed. *)
Lemma int_of_bytes_repr (z : Z) : int_of_bytes (int_repr z) = Some z.
Proof.
  unfold int_repr. destruct z as [|p|p]; [reflexivity | ..];
    destruct (magnitude_digits p) as (Hr & Hd & Hu & Hz & a & r & Hs & Ha);
    cbn [Z.to_int NilZero.string_of_int].
  - destruct (is_digit_cases a Ha) as (Hsp & Hm & Hp).
    unfold int_of_bytes. rewrite Hs, lstrip_nonspace by done.
    rewrite <- Hs, Hr, Hs, Hm, Hp, <- Hs, Hd. cbn. by rewrite Hu, <- Hz.
  - unfold int_of_bytes. rewrite lstrip_nonspace by done.
    rewrite rstrip_cons by done. cbn [Ascii.eqb Bool.eqb]. cbv iota.
    rewrite Hd. cbn. rewrite Hu. cbn. by rewrite Hz.
Qed.

(** The server reads back the counters it wrote. *)
Lemma string2ll_repr (z : Z) :
  (Redis.LLONG_MIN <= z <= Redis.LLONG_MAX)%Z ->
  Redis.string2ll (int_repr z) = Some z.
Proof.
  intros Hz. unfold Redis.string2ll.
  assert (NilZero.int_of_string (int_repr z) = Some (Z.to_int z)) as ->.
  { unfold int_repr. apply NilZero.isi; destruct z as [|p|p]; try done;
      cbn; intros [= Hp]; by apply (DecimalPos.Unsigned.to_uint_nonnil p). }
  rewrite DecimalZ.of_to, String.eqb_refl.
  destruct (Z.leb_spec Redis.LLONG_MIN z), (Z.leb_spec z Redis.LLONG_MAX);
    try done; lia.
Qed.

(** ** Literals and keys *)

Lemma pack_app (l1 l2 : list N) : pack (l1 ++ l2) = pack l1 +:+ pack l2.
Proof.
  unfold pack. induction l1 as [|b l1 IH]; cbn; [done|]. by rewrite IH.
Qed.

Lemma str_encode_app (s1 s2 : str) (b1 b2 : bytes) :
  str_encode s1 = Some b1 -> str_encode s2 = Some b2 ->
  str_encode (s1 ++ s2) = Some (b1 +:+ b2).
Proof.
  unfold str_encode. rewrite forallb_app, flat_map_app, pack_app.
  destruct (forallb is_scalar s1), (forallb is_scalar s2); try done.
  by intros [= <-] [= <-].
Qed.

Lemma byte_scalar (a : ascii) : is_scalar (N_of_ascii a) = true.
Proof. by destruct a as [[] [] [] [] [] [] [] []]. Qed.

Lemma lit_scalar (s : bytes) : forallb is_scalar (lit s) = true.
Proof.
  unfold lit. induction s as [|a s IH]; cbn [list_ascii_of_string map forallb];
    [done|]. by rewrite byte_scalar.
Qed.

Lemma lit_length (s : bytes) : length (lit s) = String.length s.
Proof.
  unfold lit. induction s as [|a s IH]; cbn; [done|]. f_equal. apply IH.
Qed.

(** Every literal has an encoding. *)
Lemma str_encode_lit (s : bytes) : is_Some (str_encode (lit s)).
Proof. unfold str_encode. rewrite lit_scalar. eauto. Qed.

(** Text whose characters are all scalar values has an encoding. *)
Lemma str_encode_scalar (s : str) :
  forallb is_scalar s = true -> is_Some (str_encode s).
Proof. unfold str_encode. intros ->. eauto. Qed.

(** A key built as [prefix + name] encodes to the prefix's bytes followed
    by the name's. *)
Lemma key_encode (prefix : bytes) (p : bytes) (name : str) (k : bytes) :
  str_encode (lit prefix) = Some p -> str_encode name = Some k ->
  encode_str (lit prefix ++ name) = Return (p +:+ k).
Proof.
  intros Hp Hk. unfold encode_str. by rewrite (str_encode_app _ _ _ _ Hp Hk).
Qed.


(** ** uuid *)

Lemma string_length_app (s1 s2 : bytes) :
  String.length (s1 +:+ s2) = String.length s1 + String.length s2.
Proof. induction s1 as [|a s1 IH]; simpl; [done|]. by f_equal. Qed.

Lemma substring_length (n m : nat) (s : bytes) :
  n + m <= String.length s -> String.length (substring n m s) = m.
Proof.
  revert n m. induction s as [|a s IH]; intros [|n] [|m]; cbn; intros Hs;
    try done; try lia.
  - rewrite IH; [done | lia].
  - apply IH. lia.
  - apply IH. lia.
Qed.

Lemma hex_fixed_length (w : nat) (n : N) : String.length (hex_fixed w n) = w.
Proof.
  revert n. induction w as [|w IH]; intros n; cbn [hex_fixed]; [done|].
  rewrite string_length_app, IH. cbn. lia.
Qed.

(** A uuid prints as thirty-six characters. *)
Lemma uuid_str_length (i : N) : String.length (uuid_str i) = 36.
Proof.
  unfold uuid_str. rewrite !string_length_app.
  rewrite !substring_length by (rewrite hex_fixed_length; lia). done.
Qed.

(** So the key of a stored value is none of the keys whose printed form
    has another length. *)
Lemma uuid_key_fresh (i : N) (name : bytes) (k kn : bytes) :
  String.length name <> 36 ->
  str_encode (lit (uuid_str i)) = Some k ->
  str_encode (lit name) = Some kn ->
  k <> kn.
Proof.
  intros Hlen Hk Hn ->.
  pose proof (str_encode_inj _ _ _ Hk Hn) as Heq.
  apply (f_equal length) in Heq. rewrite !lit_length, uuid_str_length in Heq.
  done.
Qed.

(** ** repr is always encodable *)

Section ReprFacts.
Context `{UnicodeData}.

(** The table marks no surrogate, and nothing beyond U+10FFFF, as
    printable (they are not characters). *)
Hypothesis printable_scalar : forall c, isprintable c = true -> is_scalar c = true.

Lemma str_repr_char_scalar (quote c : N) :
  is_scalar quote = true -> forallb is_scalar (str_repr_char quote c) = true.
Proof using printable_scalar.
  intros Hq. unfold str_repr_char.
  destruct (N.eqb_spec c quote) as [->|_]; cbn [orb].
  { cbn. by rewrite Hq. }
  destruct (N.eqb_spec c 92) as [->|_]; [done|].
  repeat (match goal with
          | |- context [if ?b then _ else _] => destruct b eqn:?
          end; try apply lit_scalar).
  - cbn. rewrite andb_true_r. apply is_scalar_spec.
    match goal with Hlt : (c <? 127)%N = true |- _ =>
      apply N.ltb_lt in Hlt; lia end.
  - cbn. rewrite andb_true_r. by apply printable_scalar.
Qed.

Lemma flat_map_scalar {A} (f : A -> str) (l : list A) :
  (forall x, forallb is_scalar (f x) = true) ->
  forallb is_scalar (flat_map f l) = true.
Proof.
  intros Hf. induction l as [|x l IH]; cbn; [done|].
  by rewrite forallb_app, Hf, IH.
Qed.

Lemma str_repr_scalar (s : str) : forallb is_scalar (str_repr s) = true.
Proof using printable_scalar.
  unfold str_repr. set (quote := N_of_ascii _).
  assert (is_scalar quote = true) as Hq by apply byte_scalar.
  cbn [forallb]. rewrite Hq, forallb_app. cbn.
  rewrite flat_map_scalar by auto using str_repr_char_scalar.
  by rewrite Hq.
Qed.

Lemma repr_scalar (v : value) : forallb is_scalar (repr v) = true.
Proof using printable_scalar.
  destruct v; cbn [repr]; auto using lit_scalar, str_repr_scalar.
Qed.

Lemma join_scalar (sep : str) (parts : list str) :
  forallb is_scalar sep = true ->
  Forall (fun p => forallb is_scalar p = true) parts ->
  forallb is_scalar (join sep parts) = true.
Proof.
  intros Hsep. induction 1 as [|p parts Hp Hparts IH]; [done|].
  destruct parts as [|p' parts]; [done|].
  change (join sep (p :: p' :: parts))
    with (p ++ sep ++ join sep (p' :: parts)).
  by rewrite !forallb_app, Hp, Hsep, IH.
Qed.

(** [str(args)] never holds a character UTF-8 cannot carry: what is not
    printable is escaped. *)
Lemma tuple_str_scalar (args : list value) :
  forallb is_scalar (tuple_str args) = true.
Proof using printable_scalar.
  assert (forallb is_scalar
            (lit "(" ++ join (lit ", ") (map repr args) ++ lit ")") = true).
  { rewrite !forallb_app, !lit_scalar, join_scalar; try done.
    apply Forall_map, Forall_forall. intros v _. apply repr_scalar. }
  unfold tuple_str. destruct args as [|a [|b args]]; try done.
  by rewrite !forallb_app, !lit_scalar, repr_scalar.
Qed.

Lemma tuple_str_encodable (args : list value) :
  exists b, encode_str (tuple_str args) = Return b.
Proof using printable_scalar.
  destruct (str_encode_scalar _ (tuple_str_scalar args)) as [b Hb].
  exists b. unfold encode_str. by rewrite Hb.
Qed.

End ReprFacts.

(** * Facts about the server *)

Lemma lookup_received (c : Redis.command) (k : bytes) (s : Redis.server) :
  Redis.lookup k (Redis.received c s) = Redis.lookup k s.
Proof. done. Qed.

Lemma lookup_with_db_insert (k k' : bytes) (e : Redis.entry) (s : Redis.server) :
  Redis.lookup k' (Redis.with_db (<[k := e]> (Redis.db s)) s)
  = if decide (k = k')
    then (if Redis.expired (Redis.now s) e then None else Some e)
    else Redis.lookup k' s.
Proof.
  unfold Redis.lookup, Redis.with_db. cbn. rewrite lookup_insert.
  by destruct (decide (k = k')).
Qed.

(** A command on one key leaves every other key as it was. *)
Lemma set_frame (k v k' : bytes) (s : Redis.server) :
  k' <> k -> Redis.lookup k' (Redis.set k v s).2 = Redis.lookup k' s.
Proof.
  intros Hk. unfold Redis.set. cbn [snd].
  rewrite lookup_with_db_insert. by destruct (decide (k = k')).
Qed.

Lemma incr_frame (k k' : bytes) (s : Redis.server) :
  k' <> k -> Redis.lookup k' (Redis.incr k s).2 = Redis.lookup k' s.
Proof.
  intros Hk. unfold Redis.incr.
  repeat (match goal with
          | |- context [match ?x with _ => _ end] => destruct x
          end; cbn [snd]);
    rewrite ?lookup_with_db_insert, ?lookup_received; try done;
    by destruct (decide (k = k')).
Qed.

Lemma rpush_frame (k v k' : bytes) (s : Redis.server) :
  k' <> k -> Redis.lookup k' (Redis.rpush k v s).2 = Redis.lookup k' s.
Proof.
  intros Hk. unfold Redis.rpush.
  repeat (match goal with
          | |- context [match ?x with _ => _ end] => destruct x
          end; cbn [snd]);
    rewrite ?lookup_with_db_insert, ?lookup_received; try done;
    by destruct (decide (k = k')).
Qed.

(** Every command is logged once and leaves the clock alone. *)
Lemma set_log (k v : bytes) (s : Redis.server) :
  Redis.log (Redis.set k v s).2 = Redis.log s ++ [Redis.SET k v]
  /\ Redis.now (Redis.set k v s).2 = Redis.now s.
Proof. done. Qed.

Lemma incr_log (k : bytes) (s : Redis.server) :
  Redis.log (Redis.incr k s).2 = Redis.log s ++ [Redis.INCR k]
  /\ Redis.now (Redis.incr k s).2 = Redis.now s.
Proof.
  unfold Redis.incr.
  repeat (match goal with
          | |- context [match ?x with _ => _ end] => destruct x
          end; cbn [snd]); done.
Qed.

Lemma rpush_log (k v : bytes) (s : Redis.server) :
  Redis.log (Redis.rpush k v s).2 = Redis.log s ++ [Redis.RPUSH k v]
  /\ Redis.now (Redis.rpush k v s).2 = Redis.now s.
Proof.
  unfold Redis.rpush.
  repeat (match goal with
          | |- context [match ?x with _ => _ end] => destruct x
          end; cbn [snd]); done.
Qed.

Lemma lookup_live (k : bytes) (e : Redis.entry) (s : Redis.server) :
  Redis.lookup k s = Some e -> Redis.expired (Redis.now s) e = false.
Proof.
  unfold Redis.lookup. destruct (Redis.db s !! k) as [e'|]; [|done].
  destruct (Redis.expired (Redis.now s) e') eqn:He; [done|]. by intros [= <-].
Qed.

Lemma string2ll_range (b : bytes) (n : Z) :
  Redis.string2ll b = Some n -> (Redis.LLONG_MIN <= n <= Redis.LLONG_MAX)%Z.
Proof.
  unfold Redis.string2ll. destruct (NilZero.int_of_string b) as [d|]; [|done].
  destruct (String.eqb _ b); [|done]. cbn [andb].
  destruct (Z.leb_spec Redis.LLONG_MIN (Z.of_int d)),
    (Z.leb_spec (Z.of_int d) Redis.LLONG_MAX); try done.
  intros [= <-]. lia.
Qed.

(** A value replaced in place keeps the key alive. *)
Lemma lookup_update (c : Redis.command) (k : bytes) (v v' : Redis.rvalue)
    (ex : option Z) (s : Redis.server) :
  Redis.lookup k s = Some (Redis.Entry v ex) ->
  Redis.lookup k
    (Redis.with_db (<[k := Redis.Entry v' ex]> (Redis.db (Redis.received c s)))
       (Redis.received c s))
  = Some (Redis.Entry v' ex).
Proof.
  intros Hlive%lookup_live. rewrite lookup_with_db_insert, decide_True by done.
  unfold Redis.expired in *. cbn in *. by rewrite Hlive.
Qed.

(** RPUSH on a key that holds a list, or nothing, appends. *)
Lemma rpush_list (k v : bytes) (l : list bytes) (s : Redis.server) :
  list_at k s = Some l ->
  (Redis.rpush k v s).1 = inr (Z.of_nat (length (l ++ [v])))
  /\ list_at k (Redis.rpush k v s).2 = Some (l ++ [v]).
Proof.
  unfold list_at, Redis.rpush. rewrite lookup_received.
  destruct (Redis.lookup k s) as [[[b|l'] ex]|] eqn:Hk; try done;
    intros [= <-]; cbn [fst snd].
  - by rewrite (lookup_update _ _ _ _ _ _ Hk).
  - by rewrite lookup_with_db_insert, decide_True.
Qed.

(** INCR on a key that counts [n] makes it count [n + 1]. *)
Lemma incr_counter (k : bytes) (n : Z) (s : Redis.server) :
  counter_at k s = Some n -> n <> Redis.LLONG_MAX ->
  (Redis.incr k s).1 = inr (n + 1)%Z
  /\ counter_at k (Redis.incr k s).2 = Some (n + 1)%Z.
Proof.
  unfold counter_at, Redis.incr. rewrite lookup_received.
  destruct (Redis.lookup k s) as [[[b|l'] ex]|] eqn:Hk; try done.
  - intros Hb Hn. rewrite Hb. pose proof (string2ll_range _ _ Hb).
    destruct (Z.eqb_spec n Redis.LLONG_MAX); [done|]. cbn [fst snd].
    rewrite (lookup_update _ _ _ _ _ _ Hk).
    split; [done|]. apply string2ll_repr. lia.
  - intros [= <-] _. cbn [fst snd].
    by rewrite lookup_with_db_insert, decide_True.
Qed.

(** SET writes a value that never expires. *)
Lemma set_stored (k v : bytes) (s : Redis.server) :
  Redis.set k v s
  = (inr tt,
     Redis.Server (<[k := Redis.Entry (Redis.RString v) None]> (Redis.db s))
       (Redis.now s) (Redis.log s ++ [Redis.SET k v])).
Proof. done. Qed.

Lemma lookup_persistent (k : bytes) (v : Redis.rvalue) (d : gmap string Redis.entry)
    (t : Z) (l : list Redis.command) :
  d !! k = Some (Redis.Entry v None) ->
  Redis.lookup k (Redis.Server d t l) = Some (Redis.Entry v None).
Proof. unfold Redis.lookup. cbn. by intros ->. Qed.

(** SETEX writes a value that lives [seconds] from now. *)
Lemma setex_stored (k v : bytes) (t : Z) (s : Redis.server) :
  (0 < t)%Z ->
  Redis.setex k t v s
  = (inr tt,
     Redis.Server
       (<[k := Redis.Entry (Redis.RString v) (Some (Redis.now s + t)%Z)]>
          (Redis.db s))
       (Redis.now s) (Redis.log s ++ [Redis.SETEX k t v])).
Proof.
  intros Ht. unfold Redis.setex. by destruct (Z.leb_spec t 0); [lia|].
Qed.

Lemma get_reply (k : bytes) (s : Redis.server) :
  Redis.get k s
  = (match Redis.lookup k s with
     | None => inr None
     | Some (Redis.Entry (Redis.RString b) _) => inr (Some b)
     | Some (Redis.Entry (Redis.RList _) _) => inl Redis.WRONGTYPE
     end, Redis.received (Redis.GET k) s).
Proof.
  unfold Redis.get. rewrite lookup_received.
  by destruct (Redis.lookup k s) as [[[] ?]|].
Qed.

Lemma lrange_reply (k : bytes) (a b : Z) (s : Redis.server) :
  Redis.lrange k a b s
  = (match Redis.lookup k s with
     | None => inr []
     | Some (Redis.Entry (Redis.RList l) _) => inr (Redis.range a b l)
     | Some (Redis.Entry (Redis.RString _) _) => inl Redis.WRONGTYPE
     end, Redis.received (Redis.LRANGE k a b) s).
Proof.
  unfold Redis.lrange. rewrite lookup_received.
  by destruct (Redis.lookup k s) as [[[] ?]|].
Qed.


(** * Running programs *)

Lemma redis_with_redis (s : Redis.server) (w : world) :
  redis (with_redis s w) = s.
Proof.
  done.
Qed.

Lemma with_redis_twice (s s' : Redis.server) (w : world) :
  with_redis s (with_redis s' w) = with_redis s w.
Proof.
  done.
Qed.

(** One round trip, as an equation. *)
Lemma execute_command_run {A}
    (c : Redis.server -> Redis.reply A * Redis.server) (w : world) :
  Client.execute_command c w
  = (reported (c (redis w)).1, with_redis (c (redis w)).2 w).
Proof.
  unfold Client.execute_command. by destruct (c (redis w)) as [[msg|a] s].
Qed.

(** A client call whose arguments encode is the server's command; one
    whose value does not encode raises and sends nothing. *)
Lemma keyed_run {A} (name : str) (k : bytes)
    (c : bytes -> Redis.server -> Redis.reply A * Redis.server) (w : world) :
  encode_str name = Return k ->
  (k0 <- encode name;; Client.execute_command (c k0)) w
  = (reported (c k (redis w)).1, with_redis (c k (redis w)).2 w).
Proof.
  intros Hk. unfold bind, encode, lift. rewrite Hk.
  apply execute_command_run.
Qed.

Lemma valued_run {A} (name : str) (v : value) (k b : bytes)
    (c : bytes -> bytes -> Redis.server -> Redis.reply A * Redis.server)
    (w : world) :
  encode_str name = Return k -> Client.encoder_encode v = Return b ->
  (k0 <- encode name;; b0 <- lift (Client.encoder_encode v);;
   Client.execute_command (c k0 b0)) w
  = (reported (c k b (redis w)).1, with_redis (c k b (redis w)).2 w).
Proof.
  intros Hk Hb. unfold bind, encode, lift. rewrite Hk, Hb.
  apply execute_command_run.
Qed.

Lemma valued_raise {A} (name : str) (v : value) (k : bytes) (e : exn)
    (c : bytes -> bytes -> Redis.server -> Redis.reply A * Redis.server)
    (w : world) :
  encode_str name = Return k -> Client.encoder_encode v = Raise e ->
  (k0 <- encode name;; b0 <- lift (Client.encoder_encode v);;
   Client.execute_command (c k0 b0)) w
  = (Raise e, w).
Proof. intros Hk Hb. unfold bind, encode, lift. by rewrite Hk, Hb. Qed.

(** * exercise.py: one call of [store] *)

Lemma encode_store_key : encode_str (lit "Cache.store") = Return store_key.
Proof. reflexivity. Qed.

Lemma encode_inputs_key :
  encode_str (lit "Cache.store" ++ lit ":inputs") = Return inputs_key.
Proof. reflexivity. Qed.

Lemma encode_outputs_key :
  encode_str (lit "Cache.store" ++ lit ":outputs") = Return outputs_key.
Proof. reflexivity. Qed.

Section StoreRun.
Context `{UnicodeData}.

(** The whole of a [store] call on a live instance, step by step: the
    input is pushed, the counter is incremented, the value is written
    under a new identifier, the identifier is pushed.  Each step that
    fails ends the call there. *)
Lemma store_run (args : list value) (kwargs : list (str * value))
    (w : world) (i : bytes) :
  encode_str (tuple_str args) = Return i ->
  Exercise.invoke Exercise.store cache args kwargs w
  = let r1 := Redis.rpush inputs_key i (redis w) in
    match r1.1 with
    | inl m => (Raise (ResponseError m), with_redis r1.2 w)
    | inr _ =>
      let r2 := Redis.incr store_key r1.2 in
      match r2.1 with
      | inl m => (Raise (ResponseError m), with_redis r2.2 w)
      | inr _ =>
        match Exercise.bind_data args kwargs with
        | Raise e => (Raise e, with_redis r2.2 w)
        | Return data =>
          match encode_str (lit (next_key w)), Client.encoder_encode data with
          | Return k, Return b =>
            let r5 := Redis.rpush outputs_key k (Redis.set k b r2.2).2 in
            (match r5.1 with
             | inl m => Raise (ResponseError m)
             | inr _ => Return (VStr (lit (next_key w)))
             end, drawn r5.2 w)
          | Raise e, _ => (Raise e, drawn r2.2 w)
          | _, Raise e => (Raise e, drawn r2.2 w)
          end
        end
      end
    end.
Proof.
  intros Hi. destruct w as [s ent dr out net req].
  cbv beta iota zeta delta
    [Exercise.store Exercise.call_history Exercise.count_calls
     Exercise.store_def Exercise.invoke Exercise.__qualname__
     Exercise.attr_redis Exercise._redis cache Exercise.when
     Exercise.isinstance_Redis Exercise.on_client
     Client.rpush Client.incr Client.set Client.execute_command
     bind ret lift raise encode uuid4 urandom16 redis with_redis
     next_key drawn entropy draws stdout network requested fst snd].
  cbn [Client.encoder_encode].
  rewrite encode_inputs_key, encode_outputs_key, encode_store_key, Hi.
  cbv beta iota.
  destruct (Redis.rpush inputs_key i s) as [[m1|n1] s1]; [done|].
  destruct (Redis.incr store_key s1) as [[m2|n2] s2]; [done|].
  destruct (Exercise.bind_data args kwargs) as [data|e]; [|done].
  destruct (encode_str (lit (uuid_str (uuid4_int (ent dr))))) as [k|e] eqn:Hk;
    [|done].
  destruct (Client.encoder_encode data) as [b|e]; [|done].
  rewrite set_stored. cbn [Client.encoder_encode]. rewrite Hk. cbv beta iota.
  by destruct (Redis.rpush outputs_key k _) as [[m5|n5] s5].
Qed.

End StoreRun.

Lemma log_rpush (k v : bytes) (s : Redis.server) :
  Redis.log (Redis.rpush k v s).2 = Redis.log s ++ [Redis.RPUSH k v].
Proof. apply rpush_log. Qed.

Lemma log_incr (k : bytes) (s : Redis.server) :
  Redis.log (Redis.incr k s).2 = Redis.log s ++ [Redis.INCR k].
Proof. apply incr_log. Qed.

Lemma log_set (k v : bytes) (s : Redis.server) :
  Redis.log (Redis.set k v s).2 = Redis.log s ++ [Redis.SET k v].
Proof. done. Qed.

Lemma drop_log {A} (l cmds : list A) : drop (length l) (l ++ cmds) = cmds.
Proof. by rewrite drop_app_length. Qed.

Ltac logs :=
  repeat (rewrite log_rpush || rewrite log_incr || rewrite log_set).

Section StoreOrder.
Context `{UnicodeData}.
Hypothesis printable_scalar : forall c, isprintable c = true -> is_scalar c = true.

(** C4, as the code has it.  On every call of the instrumented [store] on
    a live instance the server receives, in this order, the push of the
    input, the increment of the counter, the write of the value, and the
    push of the output: the history wrapper is the outer one, so the input
    is logged before the counter is incremented.  A call that fails stops
    somewhere along this sequence; a call that returns went through all
    of it. *)
Theorem store_effects_order (args : list value) (kwargs : list (str * value))
    (w : world) :
  map effect_of (commands_of (Exercise.invoke Exercise.store cache args kwargs) w)
    `prefix_of` effects_in_order
  /\ (forall r,
        (Exercise.invoke Exercise.store cache args kwargs w).1 = Return r ->
        map effect_of
          (commands_of (Exercise.invoke Exercise.store cache args kwargs) w)
        = effects_in_order).
Proof using printable_scalar.
  destruct (tuple_str_encodable printable_scalar args) as [i Hi].
  unfold commands_of. rewrite (store_run _ _ _ _ Hi). cbv zeta.
  destruct (Redis.rpush inputs_key i (redis w)).1;
    cbn [fst snd redis with_redis drawn].
  { logs. rewrite drop_log.
    split; [by eexists | done]. }
  destruct (Redis.incr store_key _).1; cbn [fst snd redis with_redis drawn].
  { logs. rewrite <- app_assoc, drop_log.
    split; [by eexists | done]. }
  destruct (Exercise.bind_data args kwargs) as [data|e];
    cbn [fst snd redis with_redis drawn].
  2: { logs. rewrite <- app_assoc, drop_log.
       split; [by eexists | done]. }
  destruct (encode_str (lit (next_key w))) as [k|e];
    [destruct (Client.encoder_encode data) as [b|e]|];
    cbn [fst snd redis with_redis drawn].
  2, 3: logs; rewrite <- app_assoc, drop_log;
    split; [by eexists | done].
  logs. rewrite <- !app_assoc, drop_log.
  split; [by exists [] | done].
Qed.

End StoreOrder.

Lemma ascii_printable_scalar (c : N) :
  @isprintable ascii_printable c = true -> is_scalar c = true.
Proof.
  unfold isprintable, ascii_printable. intros [_ Hc%N.ltb_lt]%andb_prop.
  apply is_scalar_spec. lia.
Qed.

Lemma store_effects_order_witness :
  map effect_of
    (commands_of
       (Exercise.invoke (@Exercise.store ascii_printable) cache [VInt 42] [])
       (boot (serving [])))
  `prefix_of` effects_in_order.
Proof.
  apply (@store_effects_order ascii_printable ascii_printable_scalar
           [VInt 42] [] (boot (serving []))).
Defined.

(** C4, as the specification states it, fails: storing 42 in a fresh cache, the
    first command the server receives is the push of the input, the
    increment comes second. *)
Lemma store_counter_not_first :
  map effect_of
    (commands_of
       (Exercise.invoke (@Exercise.store ascii_printable) cache [VInt 42] [])
       (boot (serving [])))
  = effects_in_order
  /\ map effect_of
       (commands_of
          (Exercise.invoke (@Exercise.store ascii_printable) cache [VInt 42] [])
          (boot (serving [])))
     <> counter_first_order.
Proof. vm_compute. split; [reflexivity | discriminate]. Qed.

(** * exercise.py: counting and recording calls *)

Lemma counter_at_frame (k : bytes) (s s' : Redis.server) :
  Redis.lookup k s' = Redis.lookup k s -> counter_at k s' = counter_at k s.
Proof. unfold counter_at. by intros ->. Qed.

Lemma list_at_frame (k : bytes) (s s' : Redis.server) :
  Redis.lookup k s' = Redis.lookup k s -> list_at k s' = list_at k s.
Proof. unfold list_at. by intros ->. Qed.

(** The identifier of a stored value is none of the three keys of the
    instrumentation. *)
Lemma next_key_fresh (w : world) (k : bytes) :
  encode_str (lit (next_key w)) = Return k ->
  k <> store_key /\ k <> inputs_key /\ k <> outputs_key.
Proof.
  unfold encode_str, next_key.
  destruct (str_encode (lit (uuid_str _))) as [k'|] eqn:Hk; [|done].
  intros [= ->].
  split; [|split].
  - by apply (uuid_key_fresh _ "Cache.store" _ _ ltac:(done) Hk).
  - by apply (uuid_key_fresh _ "Cache.store:inputs" _ _ ltac:(done) Hk).
  - by apply (uuid_key_fresh _ "Cache.store:outputs" _ _ ltac:(done) Hk).
Qed.

Lemma next_key_encodable (w : world) :
  exists k, encode_str (lit (next_key w)) = Return k.
Proof.
  unfold encode_str. destruct (str_encode_lit (next_key w)) as [k ->]. eauto.
Qed.

Section StoreSteps.
Context `{UnicodeData}.
Hypothesis printable_scalar : forall c, isprintable c = true -> is_scalar c = true.

(** The first two steps of a call, from a state in which the counter and
    the input history are in order. *)
Lemma store_prologue (i : bytes) (n : Z) (ins : list bytes) (s : Redis.server) :
  counter_at store_key s = Some n -> n <> Redis.LLONG_MAX ->
  list_at inputs_key s = Some ins ->
  let s1 := (Redis.rpush inputs_key i s).2 in
  let s2 := (Redis.incr store_key s1).2 in
  (exists m, (Redis.rpush inputs_key i s).1 = inr m)
  /\ (exists m, (Redis.incr store_key s1).1 = inr m)
  /\ counter_at store_key s2 = Some (n + 1)%Z
  /\ list_at inputs_key s2 = Some (ins ++ [i])
  /\ list_at outputs_key s2 = list_at outputs_key s.
Proof.
  intros Hn Hmax Hins s1 s2.
  destruct (rpush_list inputs_key i ins s Hins) as [Hr1 Hl1].
  assert (counter_at store_key s1 = Some n) as Hn1.
  { rewrite <- Hn. apply counter_at_frame. by apply rpush_frame. }
  destruct (incr_counter store_key n s1 Hn1 Hmax) as [Hr2 Hn2].
  repeat split; eauto.
  - rewrite <- Hl1. apply list_at_frame. by apply incr_frame.
  - transitivity (list_at outputs_key s1); apply list_at_frame;
      [by apply incr_frame | by apply rpush_frame].
Qed.


(** A call with one encodable argument, from a state in which the counter
    and both histories are in order, returns the new identifier, and
    leaves the argument, the identifier and the value on record. *)
Lemma store_returns (data : value) (b : bytes) (n : Z) (ins outs : list bytes)
    (w : world) :
  Client.encoder_encode data = Return b ->
  counter_at store_key (redis w) = Some n -> n <> Redis.LLONG_MAX ->
  list_at inputs_key (redis w) = Some ins ->
  list_at outputs_key (redis w) = Some outs ->
  exists i k w',
    Exercise.invoke Exercise.store cache [data] [] w
    = (Return (VStr (lit (next_key w))), w')
    /\ encode_str (tuple_str [data]) = Return i
    /\ encode_str (lit (next_key w)) = Return k
    /\ counter_at store_key (redis w') = Some (n + 1)%Z
    /\ list_at inputs_key (redis w') = Some (ins ++ [i])
    /\ list_at outputs_key (redis w') = Some (outs ++ [k])
    /\ Redis.lookup k (redis w') = Some (Redis.Entry (Redis.RString b) None).
Proof using printable_scalar.
  intros Hb Hn Hmax Hins Houts.
  destruct (tuple_str_encodable printable_scalar [data]) as [i Hi].
  destruct (store_prologue i n ins (redis w) Hn Hmax Hins)
    as ([m1 Hr1] & [m2 Hr2] & Hn2 & Hl2 & Ho2).
  destruct (next_key_encodable w) as [k Hk].
  destruct (next_key_fresh w k Hk) as (Hk1 & Hk2 & Hk3).
  rewrite (store_run _ _ _ _ Hi). cbv zeta. rewrite Hr1, Hr2.
  cbn [Exercise.bind_data]. rewrite Hk, Hb.
  set (s2 := (Redis.incr store_key _).2) in *.
  assert (list_at outputs_key (Redis.set k b s2).2 = Some outs) as Ho3.
  { rewrite <- Houts, <- Ho2. apply list_at_frame. by apply set_frame. }
  destruct (rpush_list outputs_key k outs _ Ho3) as [Hr5 Hl5].
  rewrite Hr5. exists i, k. eexists. split; [reflexivity|].
  cbn [drawn redis]. repeat split; try done.
  - rewrite <- Hn2. apply counter_at_frame.
    rewrite rpush_frame, set_frame; done.
  - rewrite <- Hl2. apply list_at_frame.
    rewrite rpush_frame, set_frame; done.
  - rewrite rpush_frame by done. rewrite set_stored. cbn [snd].
    apply lookup_persistent. apply lookup_insert_eq.
Qed.

End StoreSteps.

(** * exercise.py: the cache *)

(** [Cache()] sends FLUSHDB with the ASYNC option and hands out an
    instance bound to a live client; the keyspace is empty from then on. *)
Lemma Cache_run (w : world) :
  Exercise.Cache w
  = (Return cache,
     with_redis
       (Redis.Server ∅ (Redis.now (redis w))
          (Redis.log (redis w) ++ [Redis.FLUSHDB true])) w).
Proof. done. Qed.

Lemma lookup_empty_db (k : bytes) (t : Z) (l : list Redis.command) :
  Redis.lookup k (Redis.Server ∅ t l) = None.
Proof. unfold Redis.lookup. cbn. by rewrite lookup_empty. Qed.

Lemma get_run (key : str) (k : bytes)
    (fn : option (option bytes -> IO value)) (w : world) :
  encode_str key = Return k ->
  Exercise.get cache key fn w
  = let w' := with_redis (Redis.received (Redis.GET k) (redis w)) w in
    match Redis.lookup k (redis w) with
    | Some (Redis.Entry (Redis.RList _) _) =>
      (Raise (ResponseError Redis.WRONGTYPE), w')
    | Some (Redis.Entry (Redis.RString b) _) =>
      match fn with
      | Some f => f (Some b) w'
      | None => (Return (VBytes b), w')
      end
    | None =>
      match fn with
      | Some f => f None w'
      | None => (Return VNone, w')
      end
    end.
Proof.
  intros Hk. unfold Exercise.get. unfold bind at 1.
  cbn [Exercise.attr_redis cache Exercise._redis ret].
  unfold bind at 1. cbn [Exercise.on_client]. unfold Client.get.
  rewrite (keyed_run _ _ _ _ Hk), get_reply. cbn [fst snd].
  destruct (Redis.lookup k (redis w)) as [[[b|l] ex]|]; cbn [reported];
    by destruct fn.
Qed.

Lemma lookup_elapse_persistent (k : bytes) (v : Redis.rvalue) (d : Z)
    (s : Redis.server) :
  Redis.lookup k s = Some (Redis.Entry v None) ->
  Redis.lookup k (Redis.elapse d s) = Some (Redis.Entry v None).
Proof.
  unfold Redis.lookup, Redis.elapse. cbn [Redis.db Redis.now].
  destruct (Redis.db s !! k) as [[v' ex']|]; [|done].
  destruct (Redis.expired (Redis.now s) _); [done|]. by intros [= -> ->].
Qed.

Section StoreGet.
Context `{UnicodeData}.
Hypothesis printable_scalar : forall c, isprintable c = true -> is_scalar c = true.


End StoreGet.



Lemma fresh_counter (k : bytes) (t : Z) (l : list Redis.command) :
  counter_at k (Redis.Server ∅ t l) = Some 0%Z.
Proof. unfold counter_at. by rewrite lookup_empty_db. Qed.

Lemma fresh_list (k : bytes) (t : Z) (l : list Redis.command) :
  list_at k (Redis.Server ∅ t l) = Some [].
Proof. unfold list_at. by rewrite lookup_empty_db. Qed.

Section Histories.
Context `{UnicodeData}.
Hypothesis printable_scalar : forall c, isprintable c = true -> is_scalar c = true.



Lemma store_each_records (datas : list value) (n : Z) (ins outs : list bytes)
    (w : world) :
  Forall (fun data => exists b, Client.encoder_encode data = Return b) datas ->
  counter_at store_key (redis w) = Some n ->
  list_at inputs_key (redis w) = Some ins ->
  list_at outputs_key (redis w) = Some outs ->
  (n + Z.of_nat (length datas) <= Redis.LLONG_MAX)%Z ->
  exists keys w' ins' outs',
    store_each cache datas w = (Return keys, w')
    /\ list_at inputs_key (redis w') = Some (ins ++ ins')
    /\ list_at outputs_key (redis w') = Some (outs ++ outs')
    /\ Forall2 (fun data i => encode_str (tuple_str [data]) = Return i)
         datas ins'
    /\ Forall2 (fun key o => Client.encoder_encode key = Return o) keys outs'
    /\ length outs' = length datas.
Proof using printable_scalar.
  intros Hdatas. revert n ins outs w.
  induction Hdatas as [|data datas [b Hb] _ IH];
    intros n ins outs w Hn Hins Houts Hmax.
  - exists [], w, [], []. rewrite !app_nil_r. by repeat split.
  - cbn [length] in Hmax.
    destruct (store_returns printable_scalar data b n ins outs w Hb Hn
                ltac:(lia) Hins Houts)
      as (i & k & w1 & Hrun & Hi & Hk & Hn1 & Hins1 & Houts1 & _).
    destruct (IH (n + 1)%Z (ins ++ [i]) (outs ++ [k]) w1 Hn1 Hins1 Houts1
                ltac:(lia))
      as (keys & w' & ins' & outs' & Hrest & Hins' & Houts' & Hfi & Hfo & Hlen).
    exists (VStr (lit (next_key w)) :: keys), w', (i :: ins'), (k :: outs').
    cbn [store_each]. unfold bind at 1. rewrite Hrun.
    unfold bind at 1. rewrite Hrest. cbn [ret].
    rewrite <- !app_assoc in Hins', Houts'.
    repeat split; try done; try (by constructor). cbn. by rewrite Hlen.
Qed.

(** C6, as the code has it.  On a fresh instance, N calls of [store] in
    sequence, each with one value the client can encode, all return; the
    input history and the output history then both have length N, the
    k-th input entry is the printed argument tuple of call k and the k-th
    output entry is the identifier call k returned. *)
Theorem store_histories (datas : list value) (w : world) :
  Forall (fun data => exists b, Client.encoder_encode data = Return b) datas ->
  (Z.of_nat (length datas) <= Redis.LLONG_MAX)%Z ->
  exists keys w' ins outs,
    store_each cache datas (Exercise.Cache w).2 = (Return keys, w')
    /\ list_at inputs_key (redis w') = Some ins
    /\ list_at outputs_key (redis w') = Some outs
    /\ length ins = length datas
    /\ length outs = length datas
    /\ Forall2 (fun data i => encode_str (tuple_str [data]) = Return i)
         datas ins
    /\ Forall2 (fun key o => Client.encoder_encode key = Return o) keys outs
    /\ length keys = length datas.
Proof using printable_scalar.
  intros Hdatas Hmax. rewrite Cache_run. cbn [snd].
  set (w0 := with_redis _ w).
  destruct (store_each_records datas 0 [] [] w0 Hdatas
              (fresh_counter _ _ _) (fresh_list _ _ _) (fresh_list _ _ _)
              ltac:(lia))
    as (keys & w' & ins & outs & Hrun & Hins & Houts & Hfi & Hfo & Hlen).
  exists keys, w', ins, outs.
  pose proof (Forall2_length _ _ _ Hfi). pose proof (Forall2_length _ _ _ Hfo).
  repeat split; try done; congruence.
Qed.

End Histories.


Lemma store_histories_witness :
  exists keys w' ins outs,
    @store_each ascii_printable cache [VInt 42; VBytes "x"]
      (Exercise.Cache (boot (serving []))).2
    = (Return keys, w')
    /\ list_at inputs_key (redis w') = Some ins
    /\ list_at outputs_key (redis w') = Some outs
    /\ length ins = 2
    /\ length outs = 2
    /\ Forall2
         (fun data i =>
            encode_str (@tuple_str ascii_printable [data]) = Return i)
         [VInt 42; VBytes "x"] ins
    /\ Forall2 (fun key o => Client.encoder_encode key = Return o) keys outs
    /\ length keys = 2.
Proof.
  apply (@store_histories ascii_printable ascii_printable_scalar
           [VInt 42; VBytes "x"] (boot (serving []))).
  - repeat constructor; eexists; reflexivity.
  - vm_compute. discriminate.
Defined.

(** C6, as the specification states it, fails: the two histories do not always
    have the same length.  A text holding a lone surrogate is logged as an
    input (its [repr] is plain ASCII), then the write of the value fails
    in the encoder, and no output is logged. *)
Lemma store_histories_unequal :
  let run :=
    Exercise.invoke (@Exercise.store ascii_printable) cache
      [VStr [0xD800%N]] [] (Exercise.Cache (boot (serving []))).2 in
  run.1 = Raise UnicodeEncodeError
  /\ length <$> list_at inputs_key (redis run.2) = Some 1
  /\ length <$> list_at outputs_key (redis run.2) = Some 0.
Proof. vm_compute. by repeat split. Qed.



(** C8.  On an identifier the store does not hold, [get] with no
    transform returns [None] and raises nothing, while [get_str] and
    [get_int] raise: the one calls [decode] on [None] (AttributeError),
    the other [int] (TypeError). *)
Theorem get_absent (key : str) (k : bytes) (w : world) :
  encode_str key = Return k ->
  Redis.lookup k (redis w) = None ->
  (Exercise.get cache key None w).1 = Return VNone
  /\ (Exercise.get_str cache key w).1 = Raise AttributeError
  /\ (Exercise.get_int cache key w).1 = Raise TypeError.
Proof.
  intros Hk Habsent. unfold Exercise.get_str, Exercise.get_int.
  rewrite !(get_run _ _ _ _ Hk). cbv zeta. by rewrite Habsent.
Qed.

Lemma get_absent_witness :
  (Exercise.get cache (lit "no-such-key") None (boot (serving []))).1
  = Return VNone
  /\ (Exercise.get_str cache (lit "no-such-key") (boot (serving []))).1
     = Raise AttributeError
  /\ (Exercise.get_int cache (lit "no-such-key") (boot (serving []))).1
     = Raise TypeError.
Proof.
  apply (get_absent (lit "no-such-key") "no-such-key" (boot (serving [])));
    reflexivity.
Defined.

(** * exercise.py: replay *)

Lemma exists_reply (k : bytes) (s : Redis.server) :
  Redis.exists_ k s
  = (inr (match Redis.lookup k s with None => 0 | Some _ => 1 end)%Z,
     Redis.received (Redis.EXISTS k) s).
Proof.
  unfold Redis.exists_. rewrite lookup_received.
  by destruct (Redis.lookup k s).
Qed.






(** * web.py *)

(** The body of [get_page] never raises: it makes the request and returns
    the page, or the formatted error. *)
Lemma get_page_def_run (u : str) (w : world) :
  Web.get_page_def u w = (Return (page_of (next_exchange u w)), fetched u w).
Proof.
  unfold Web.get_page_def, Web.try_except, page_of, fetched, next_exchange.
  unfold bind at 1. unfold Requests.get.
  destruct (network w (length (requested w)) u) as [message lat|r lat];
    [done|].
  unfold bind at 1. unfold Requests.raise_for_status.
  cbn [failure_of latency_of].
  by destruct (Requests.http_error_msg r).
Qed.

Lemma count_result_keys (ku ku' : bytes) : count_key ku <> result_key ku'.
Proof. done. Qed.

Lemma encode_count_key (u : str) (ku : bytes) :
  encode_str u = Return ku ->
  encode_str (lit "count:" ++ u) = Return (count_key ku).
Proof.
  unfold encode_str at 1. destruct (str_encode u) as [k|] eqn:Hk; [|done].
  intros [= ->]. by apply key_encode.
Qed.

Lemma encode_result_key (u : str) (ku : bytes) :
  encode_str u = Return ku ->
  encode_str (lit "result:" ++ u) = Return (result_key ku).
Proof.
  unfold encode_str at 1. destruct (str_encode u) as [k|] eqn:Hk; [|done].
  intros [= ->]. by apply key_encode.
Qed.

(** One call of [get_page], step by step. *)
Lemma get_page_run (u : str) (ku : bytes) (w : world) :
  encode_str u = Return ku ->
  Web.get_page u w
  = let r1 := Redis.incr (count_key ku) (redis w) in
    match r1.1 with
    | inl m => (Raise (ResponseError m), with_redis r1.2 w)
    | inr _ =>
      let r2 := Redis.get (result_key ku) r1.2 in
      match r2.1 with
      | inl m => (Raise (ResponseError m), with_redis r2.2 w)
      | inr cached =>
        if Web.truthy cached
        then decode_ cached (with_redis r2.2 w)
        else
          let w3 := fetched u (with_redis r2.2 w) in
          let page := page_of (next_exchange u w) in
          match encode_str page with
          | Raise e => (Raise e, w3)
          | Return pb =>
            (Return page,
             with_redis (Redis.setex (result_key ku) 10 pb (redis w3)).2 w3)
          end
      end
    end.
Proof.
  intros Hu. cbv zeta. unfold Web.get_page, Web.data_cacher.
  unfold bind at 1. unfold Client.incr.
  rewrite (keyed_run _ _ _ _ (encode_count_key _ _ Hu)).
  destruct (Redis.incr (count_key ku) (redis w)) as [[m1|n1] s1];
    cbn [fst snd reported]; [done|].
  unfold bind at 1. unfold Client.get.
  rewrite (keyed_run _ _ _ _ (encode_result_key _ _ Hu)).
  rewrite redis_with_redis, with_redis_twice.
  destruct (Redis.get (result_key ku) s1) as [[m2|cached] s2];
    cbn [fst snd reported]; [done|].
  destruct (Web.truthy cached); [done|].
  unfold bind at 1. rewrite get_page_def_run.
  change (next_exchange u (with_redis s2 w)) with (next_exchange u w).
  unfold bind at 1. unfold Client.setex.
  destruct (encode_str (page_of (next_exchange u w))) as [pb|e] eqn:Hp.
  - erewrite valued_run; [| by apply encode_result_key | exact Hp].
    rewrite setex_stored by done. done.
  - by erewrite valued_raise; [| by apply encode_result_key | exact Hp].
Qed.

Lemma lookup_no_expiry (k : bytes) (v : Redis.rvalue) (s : Redis.server) :
  Redis.db s !! k = Some (Redis.Entry v None) ->
  Redis.lookup k s = Some (Redis.Entry v None).
Proof. unfold Redis.lookup. by intros ->. Qed.

Lemma access_count_stored (k b : bytes) (s : Redis.server) :
  Redis.db s !! k = Some (Redis.Entry (Redis.RString b) None) ->
  access_count k s = Redis.string2ll b.
Proof.
  intros Hk. unfold access_count. by rewrite (lookup_no_expiry _ _ _ Hk).
Qed.

(** INCR on an access counter: the reply, the new entry, and the rest of
    the keyspace. *)
Lemma incr_access (k : bytes) (n : Z) (s : Redis.server) :
  access_count k s = Some n -> n <> Redis.LLONG_MAX ->
  (Redis.incr k s).1 = inr (n + 1)%Z
  /\ Redis.db (Redis.incr k s).2 !! k
     = Some (Redis.Entry (Redis.RString (int_repr (n + 1))) None)
  /\ (forall k', k' <> k ->
        Redis.db (Redis.incr k s).2 !! k' = Redis.db s !! k')
  /\ Redis.now (Redis.incr k s).2 = Redis.now s
  /\ Redis.log (Redis.incr k s).2 = Redis.log s ++ [Redis.INCR k].
Proof.
  unfold access_count, Redis.incr. rewrite lookup_received.
  destruct (Redis.lookup k s) as [[[b|l] [t|]]|] eqn:Hk; try done.
  - intros Hb Hmax. rewrite Hb.
    destruct (Z.eqb_spec n Redis.LLONG_MAX); [done|]. cbn.
    repeat split; try done.
    + apply lookup_insert_eq.
    + intros k' Hk'. by apply lookup_insert_ne.
  - intros [= <-] _. cbn. repeat split; try done.
    + apply lookup_insert_eq.
    + intros k' Hk'. by apply lookup_insert_ne.
Qed.

Lemma truthy_nonempty (b : bytes) :
  b <> EmptyString -> Web.truthy (Some b) = true.
Proof. by destruct b. Qed.

Lemma miss_falsy (k : bytes) (s : Redis.server) :
  miss k s ->
  exists cached, Redis.get k s = (inr cached, Redis.received (Redis.GET k) s)
                 /\ Web.truthy cached = false.
Proof.
  rewrite get_reply. intros [-> | [ex ->]]; eauto.
Qed.

(** A call that finds nothing usable in the cache: one request is made,
    its page is returned and cached for ten time units, and the counter
    has moved by one. *)
Lemma get_page_miss (u : str) (ku pb : bytes) (n : Z) (w : world) :
  encode_str u = Return ku ->
  access_count (count_key ku) (redis w) = Some n -> n <> Redis.LLONG_MAX ->
  miss (result_key ku) (redis w) ->
  encode_str (page_of (next_exchange u w)) = Return pb ->
  exists w',
    Web.get_page u w = (Return (page_of (next_exchange u w)), w')
    /\ requested w' = requested w ++ [u]
    /\ network w' = network w
    /\ Redis.now (redis w')
       = (Redis.now (redis w) + latency_of (next_exchange u w))%Z
    /\ Redis.db (redis w') !! count_key ku
       = Some (Redis.Entry (Redis.RString (int_repr (n + 1))) None)
    /\ Redis.db (redis w') !! result_key ku
       = Some (Redis.Entry (Redis.RString pb)
                 (Some (Redis.now (redis w') + 10)%Z))
    /\ Redis.log (redis w')
       = Redis.log (redis w)
         ++ [Redis.INCR (count_key ku); Redis.GET (result_key ku);
             Redis.SETEX (result_key ku) 10 pb].
Proof.
  intros Hu Hn Hmax Hmiss Hpb.
  destruct (incr_access _ _ _ Hn Hmax) as (Hr1 & Hck & Hframe & Hnow & Hlog).
  rewrite (get_page_run _ _ _ Hu). cbv zeta. rewrite Hr1.
  set (s1 := (Redis.incr (count_key ku) (redis w)).2) in *.
  assert (miss (result_key ku) s1) as Hmiss1.
  { unfold miss, Redis.lookup in *. rewrite Hframe, Hnow; [done|].
    intros Heq. by apply (count_result_keys ku ku). }
  destruct (miss_falsy _ _ Hmiss1) as (cached & Hget & Hfalsy).
  rewrite Hget. cbn [fst snd]. rewrite Hfalsy.
  rewrite Hpb, setex_stored by done.
  eexists. split; [reflexivity|].
  cbn [fetched requested network redis with_redis Redis.now Redis.elapse
       Redis.db Redis.log Redis.received snd].
  rewrite Hnow, Hlog, <- !app_assoc.
  repeat split; try done.
  - rewrite lookup_insert_ne by (intros Heq; by apply (count_result_keys ku ku)).
    done.
  - apply lookup_insert_eq.
Qed.


Lemma lookup_within_ttl (k : bytes) (v : Redis.rvalue) (t d : Z)
    (s : Redis.server) :
  Redis.db s !! k = Some (Redis.Entry v (Some t)) ->
  (Redis.now s + d <= t)%Z ->
  Redis.lookup k (Redis.elapse d s) = Some (Redis.Entry v (Some t)).
Proof.
  intros Hk Ht. unfold Redis.lookup, Redis.elapse, Redis.expired.
  cbn [Redis.db Redis.now Redis.e_expire]. rewrite Hk.
  cbn [Redis.e_expire]. by destruct (Z.ltb_spec t (Redis.now s + d)); [lia|].
Qed.

Lemma elapse_nothing (s : Redis.server) : Redis.elapse 0 s = s.
Proof. destruct s. unfold Redis.elapse. cbn. by rewrite Z.add_0_r. Qed.

Lemma access_count_range (k : bytes) (n : Z) (s : Redis.server) :
  access_count k s = Some n -> (Redis.LLONG_MIN <= n <= Redis.LLONG_MAX)%Z.
Proof.
  unfold access_count.
  destruct (Redis.lookup k s) as [[[b|l] [t|]]|]; try done.
  - apply string2ll_range.
  - intros [= <-]. done.
Qed.

Lemma access_count_written (k : bytes) (n : Z) (s : Redis.server) :
  Redis.db s !! k = Some (Redis.Entry (Redis.RString (int_repr n)) None) ->
  (Redis.LLONG_MIN <= n <= Redis.LLONG_MAX)%Z ->
  access_count k s = Some n.
Proof.
  intros Hk Hn. rewrite (access_count_stored _ _ _ Hk).
  by apply string2ll_repr.
Qed.


(** Every call moves the counter by one.  What follows the increment
    (the read of the cache, the request, the write of the result) leaves
    the counter's key alone. *)
Lemma get_page_counts (u : str) (ku : bytes) (n : Z) (w : world) :
  encode_str u = Return ku ->
  access_count (count_key ku) (redis w) = Some n -> n <> Redis.LLONG_MAX ->
  access_count (count_key ku) (redis (Web.get_page u w).2) = Some (n + 1)%Z.
Proof.
  intros Hu Hn Hmax. pose proof (access_count_range _ _ _ Hn) as Hrange.
  destruct (incr_access _ _ _ Hn Hmax) as (Hr1 & Hck & _).
  rewrite (get_page_run _ _ _ Hu). cbv zeta. rewrite Hr1.
  set (s1 := (Redis.incr (count_key ku) (redis w)).2) in *.
  rewrite get_reply. cbn [fst snd].
  assert (forall s', Redis.db s' !! count_key ku = Redis.db s1 !! count_key ku ->
                     access_count (count_key ku) s' = Some (n + 1)%Z)
    as Hdone.
  { intros s' Hs'. apply access_count_written; [by rewrite Hs' | lia]. }
  destruct (Redis.lookup (result_key ku) s1) as [[[b|l] ex]|];
    try (by apply Hdone).
  - destruct (Web.truthy (Some b)).
    + cbn [decode_]. unfold decode.
      destruct (bytes_decode b); by apply Hdone.
    + destruct (encode_str (page_of (next_exchange u w))); [|by apply Hdone].
      rewrite setex_stored by done. apply Hdone. cbn.
      by rewrite lookup_insert_ne
        by (intros Heq; by apply (count_result_keys ku ku)).
  - cbn [Web.truthy].
    destruct (encode_str (page_of (next_exchange u w))); [|by apply Hdone].
    rewrite setex_stored by done. apply Hdone. cbn.
    by rewrite lookup_insert_ne
      by (intros Heq; by apply (count_result_keys ku ku)).
Qed.




Lemma lookup_fresh_ttl (k : bytes) (v : Redis.rvalue) (s : Redis.server) :
  Redis.db s !! k = Some (Redis.Entry v (Some (Redis.now s + 10)%Z)) ->
  Redis.lookup k s = Some (Redis.Entry v (Some (Redis.now s + 10)%Z)).
Proof.
  intros Hk. rewrite <- (elapse_nothing s) at 1.
  apply lookup_within_ttl; [done | lia].
Qed.




(** C10.  When the entry under the result key is there but is the empty
    string, [get_page] does as if it were not: it makes the request,
    returns the fresh page, and writes it over the entry with a new
    ten-unit expiry. *)
Theorem get_page_empty_entry (u : str) (ku pb : bytes) (ex : option Z)
    (n : Z) (w : world) :
  encode_str u = Return ku ->
  access_count (count_key ku) (redis w) = Some n -> n <> Redis.LLONG_MAX ->
  Redis.lookup (result_key ku) (redis w)
  = Some (Redis.Entry (Redis.RString EmptyString) ex) ->
  encode_str (page_of (next_exchange u w)) = Return pb ->
  exists w',
    Web.get_page u w = (Return (page_of (next_exchange u w)), w')
    /\ requested w' = requested w ++ [u]
    /\ commands_of (Web.get_page u) w
       = [Redis.INCR (count_key ku); Redis.GET (result_key ku);
          Redis.SETEX (result_key ku) 10 pb]
    /\ Redis.lookup (result_key ku) (redis w')
       = Some (Redis.Entry (Redis.RString pb)
                 (Some (Redis.now (redis w') + 10)%Z)).
Proof.
  intros Hu Hn Hmax Hempty Hpb.
  destruct (get_page_miss u ku pb n w Hu Hn Hmax ltac:(right; eauto) Hpb)
    as (w' & Hrun & Hreq & _ & _ & _ & Hrk & Hlog).
  exists w'. repeat split; try done.
  - unfold commands_of. rewrite Hrun. cbn [snd]. rewrite Hlog. apply drop_log.
  - by apply lookup_fresh_ttl.
Qed.

Lemma get_page_empty_entry_witness :
  exists w',
    Web.get_page example_url empty_cached
    = (Return (page_of (next_exchange example_url empty_cached)), w')
    /\ requested w' = requested empty_cached ++ [example_url]
    /\ commands_of (Web.get_page example_url) empty_cached
       = [Redis.INCR (count_key "http://example.org/");
          Redis.GET (result_key "http://example.org/");
          Redis.SETEX (result_key "http://example.org/") 10 EmptyString]
    /\ Redis.lookup (result_key "http://example.org/") (redis w')
       = Some (Redis.Entry (Redis.RString EmptyString)
                 (Some (Redis.now (redis w') + 10)%Z)).
Proof.
  apply (get_page_empty_entry example_url "http://example.org/" EmptyString
           (Some 11%Z) 1 empty_cached); try reflexivity.
  discriminate.
Defined.

(** * The embedding at work *)

(** The euro sign takes three bytes, and reads back. *)
Example utf8_euro :
  str_encode [0x20AC%N] = Some (pack [0xE2; 0x82; 0xAC]%N)
  /\ bytes_decode (pack [0xE2; 0x82; 0xAC]%N) = Some [0x20AC%N].
Proof. by vm_compute. Qed.

(** An overlong form and an encoded surrogate are refused. *)
Example utf8_strict :
  bytes_decode (pack [0xC0; 0x80]%N) = None
  /\ bytes_decode (pack [0xED; 0xA0; 0x80]%N) = None
  /\ str_encode [0xD800%N] = None.
Proof. by vm_compute. Qed.

(** [int] is lenient where the server is strict. *)
Example int_reads :
  int_of_bytes " +1_000 " = Some 1000%Z
  /\ int_of_bytes "1__0" = None
  /\ int_of_bytes "007" = Some 7%Z
  /\ Redis.string2ll "007" = None
  /\ Redis.string2ll "-5" = Some (-5)%Z
  /\ Redis.string2ll "9223372036854775808" = None.
Proof. by vm_compute. Qed.

(** [str(args)] of a one-value call. *)
Example tuple_str_one :
  str_encode (@tuple_str ascii_printable [VInt 42]) = Some "(42,)"
  /\ str_encode (@tuple_str ascii_printable [VStr (lit "a"); VBytes "b"])
     = Some "('a', b'b')".
Proof. by vm_compute. Qed.

(** The commands of a first [store], and what [replay] prints after it. *)
Example stored_once_log :
  Redis.log (redis stored_once)
  = [Redis.FLUSHDB true;
     Redis.RPUSH "Cache.store:inputs" "(42,)";
     Redis.INCR "Cache.store";
     Redis.SET "00000000-0000-4000-8000-000000000007" "42";
     Redis.RPUSH "Cache.store:outputs" "00000000-0000-4000-8000-000000000007"].
Proof. by vm_compute. Qed.

Example replay_output :
  stdout (Exercise.replay (Exercise.BoundMethod cache (lit "Cache.store"))
            stored_once).2
  = [lit "Cache.store was called 1 times:";
     lit "Cache.store(*(42,)) -> b'00000000-0000-4000-8000-000000000007'"].
Proof. by vm_compute. Qed.

(** A stored integer reads back as an integer through [get_int]. *)
Example get_int_42 :
  (Exercise.get_int cache (lit "00000000-0000-4000-8000-000000000007")
     stored_once).1
  = Return (VInt 42).
Proof. by vm_compute. Qed.

(** A page is fetched once and served from the cache five units later;
    twelve units later it is fetched again. *)
Example fetch_twice_requests :
  requested (fetch_twice example_url 5 (boot (serving (lit "hello")))).2
  = [example_url]
  /\ requested (fetch_twice example_url 12 (boot (serving (lit "hello")))).2
     = [example_url; example_url].
Proof. by vm_compute. Qed.

(** A 404 comes back as text, not as an exception. *)
Example page_of_404 :
  page_of (Answered {| status_code := 404; reason := lit "Not Found";
                       url := lit "http://a/"; text := lit "gone" |} 1)
  = lit "Error fetching the URL: 404 Client Error: Not Found for url: http://a/".
Proof. by vm_compute. Qed.

(** * Further properties of exercise.py *)

Lemma str_encode_ascii (s : bytes) :
  is_ascii s = true -> str_encode (lit s) = Some s.
Proof.
  unfold is_ascii. induction s as [|a s IH]; [done|].
  cbn [list_ascii_of_string forallb]. intros [Ha Hs]%andb_prop.
  change (lit (String a s)) with ([N_of_ascii a] ++ lit s).
  rewrite (str_encode_app _ _ (String a EmptyString) s); [done | | by apply IH].
  unfold str_encode. cbn [forallb flat_map]. rewrite byte_scalar. cbn [andb].
  unfold utf8_char. rewrite Ha. cbn. by rewrite ascii_N_embedding.
Qed.

Lemma uint_digits_ascii (d : Decimal.uint) :
  is_ascii (NilEmpty.string_of_uint d) = true.
Proof. induction d; done. Qed.

Lemma int_repr_ascii (z : Z) : is_ascii (int_repr z) = true.
Proof.
  unfold int_repr. destruct z as [|p|p]; [done | ..];
    cbn [Z.to_int NilZero.string_of_int];
    rewrite string_of_uint_nonnil
      by apply DecimalPos.Unsigned.to_uint_nonnil;
    [|change (is_ascii (String "-" ?s)) with (is_ascii s)];
    apply uint_digits_ascii.
Qed.

(** The client writes an integer as its decimal digits. *)
Lemma encoder_encode_int (z : Z) :
  Client.encoder_encode (VInt z) = Return (int_repr z).
Proof.
  cbn [Client.encoder_encode]. unfold encode_str.
  by rewrite (str_encode_ascii _ (int_repr_ascii z)).
Qed.

Section StoredValue.
Context `{UnicodeData}.
Hypothesis printable_scalar : forall c, isprintable c = true -> is_scalar c = true.

(** Where a returned [store] call left its value: under the encoded
    identifier, as a string with no expiry, at any later time. *)
Lemma store_value_at (args : list value) (kwargs : list (str * value))
    (w w1 : world) (r : value) :
  Exercise.invoke Exercise.store cache args kwargs w = (Return r, w1) ->
  exists data key k b,
    Exercise.bind_data args kwargs = Return data
    /\ r = VStr key
    /\ encode_str key = Return k
    /\ Client.encoder_encode data = Return b
    /\ forall d, Redis.lookup k (redis (sleep d w1).2)
                 = Some (Redis.Entry (Redis.RString b) None).
Proof using printable_scalar.
  destruct (tuple_str_encodable printable_scalar args) as [i Hi].
  rewrite (store_run _ _ _ _ Hi). cbv zeta.
  destruct (Redis.rpush inputs_key i (redis w)).1; [done|].
  destruct (Redis.incr store_key _).1; [done|].
  destruct (Exercise.bind_data args kwargs) as [data|e]; [|done].
  destruct (next_key_encodable w) as [k Hk]. rewrite Hk.
  destruct (next_key_fresh w k Hk) as (_ & _ & Hk3).
  destruct (Client.encoder_encode data) as [b|e] eqn:Hb; [|done].
  destruct (Redis.rpush outputs_key k _).1 eqn:Hr5; [done|].
  intros [= <- <-]. exists data, (lit (next_key w)), k, b.
  repeat split; try done.
  intros d. cbn [sleep snd redis with_redis drawn].
  apply lookup_elapse_persistent.
  rewrite rpush_frame by done. unfold Redis.set, Redis.with_db. cbn [snd].
  apply lookup_persistent. apply lookup_insert_eq.
Qed.

(** X1.  An integer stored with [store] reads back, through [get_int]
    and the identifier [store] returned, as the same integer, at any
    later time. *)
Theorem store_get_int (z : Z) (w w1 : world) (r : value) :
  Exercise.invoke Exercise.store cache [VInt z] [] w = (Return r, w1) ->
  exists key,
    r = VStr key
    /\ forall d, (Exercise.get_int cache key (sleep d w1).2).1
                 = Return (VInt z).
Proof using printable_scalar.
  intros Hrun.
  destruct (store_value_at _ _ _ _ _ Hrun)
    as (data & key & k & b & Hdata & -> & Hk & Hb & Hat).
  injection Hdata as <-. rewrite encoder_encode_int in Hb. injection Hb as <-.
  exists key. split; [done|]. intros d.
  unfold Exercise.get_int. rewrite (get_run _ _ _ _ Hk). cbv zeta.
  rewrite Hat. unfold bind at 1. unfold int_. by rewrite int_of_bytes_repr.
Qed.

(** X2.  A text stored with [store] reads back, through [get_str] and
    the identifier [store] returned, as the same text, at any later
    time. *)
Theorem store_get_str (s : str) (w w1 : world) (r : value) :
  Exercise.invoke Exercise.store cache [VStr s] [] w = (Return r, w1) ->
  exists key,
    r = VStr key
    /\ forall d, (Exercise.get_str cache key (sleep d w1).2).1
                 = Return (VStr s).
Proof using printable_scalar.
  intros Hrun.
  destruct (store_value_at _ _ _ _ _ Hrun)
    as (data & key & k & b & Hdata & -> & Hk & Hb & Hat).
  injection Hdata as <-. cbn [Client.encoder_encode] in Hb.
  exists key. split; [done|]. intros d.
  unfold Exercise.get_str. rewrite (get_run _ _ _ _ Hk). cbv zeta.
  rewrite Hat. unfold bind at 1. cbn [decode_]. unfold decode.
  unfold encode_str in Hb. destruct (str_encode s) as [b'|] eqn:Hs; [|done].
  injection Hb as ->. by rewrite (utf8_roundtrip _ _ Hs).
Qed.

End StoredValue.

Lemma store_get_int_witness :
  exists key,
    VStr (lit "00000000-0000-4000-8000-000000000007") = VStr key
    /\ forall d,
         (Exercise.get_int cache key
            (sleep d
               (Exercise.invoke (@Exercise.store ascii_printable) cache
                  [VInt (-17)] [] (boot (serving []))).2).2).1
         = Return (VInt (-17)).
Proof.
  apply (@store_get_int ascii_printable ascii_printable_scalar (-17)
           (boot (serving []))).
  vm_compute. reflexivity.
Defined.

Lemma store_get_str_witness :
  exists key,
    VStr (lit "00000000-0000-4000-8000-000000000007") = VStr key
    /\ forall d,
         (Exercise.get_str cache key
            (sleep d
               (Exercise.invoke (@Exercise.store ascii_printable) cache
                  [VStr [0x20AC%N; 0x31%N]] [] (boot (serving []))).2).2).1
         = Return (VStr [0x20AC%N; 0x31%N]).
Proof.
  apply (@store_get_str ascii_printable ascii_printable_scalar
           [0x20AC%N; 0x31%N] (boot (serving []))).
  vm_compute. reflexivity.
Defined.


(** X4.  [get] on a key that holds a list (the histories are such keys)
    raises the server's WRONGTYPE error whatever the transform, which is
    never applied; the keyspace is left as it was. *)
Theorem get_wrong_type (key : str) (k : bytes) (l : list bytes)
    (ex : option Z) (fn : option (option bytes -> IO value)) (w : world) :
  encode_str key = Return k ->
  Redis.lookup k (redis w) = Some (Redis.Entry (Redis.RList l) ex) ->
  Exercise.get cache key fn w
  = (Raise (ResponseError Redis.WRONGTYPE),
     with_redis (Redis.received (Redis.GET k) (redis w)) w).
Proof.
  intros Hk Hlist. rewrite (get_run _ _ _ _ Hk). cbv zeta. by rewrite Hlist.
Qed.

Lemma get_wrong_type_witness :
  Exercise.get cache (lit "Cache.store:inputs")
    (Some (fun _ => ret (VInt 0))) stored_once
  = (Raise (ResponseError Redis.WRONGTYPE),
     with_redis
       (Redis.received (Redis.GET "Cache.store:inputs") (redis stored_once))
       stored_once).
Proof.
  apply (get_wrong_type (lit "Cache.store:inputs") "Cache.store:inputs"
           ["(42,)"] None _ stored_once); reflexivity.
Defined.

(** ** Reading changes nothing *)

Lemma read_only_bind {A B} (m : IO A) (k : A -> IO B) :
  read_only m -> (forall a, read_only (k a)) -> read_only (bind m k).
Proof.
  intros Hm Hk w. unfold bind. specialize (Hm w).
  destruct (m w) as [[a|e] w']; cbn [snd] in *; [|done].
  destruct Hm as [Hdb' Hnow']. destruct (Hk a w') as [Hdb Hnow].
  split; congruence.
Qed.

Lemma read_only_pure {A} (r : outcome A) : read_only (lift r).
Proof. done. Qed.

Lemma read_only_ret {A} (a : A) : read_only (ret a).
Proof. done. Qed.

Lemma read_only_raise {A} (e : exn) : read_only (@raise world A e).
Proof. done. Qed.

Lemma read_only_print (line : str) : read_only (print line).
Proof. done. Qed.

Lemma read_only_command {A}
    (c : Redis.server -> Redis.reply A * Redis.server) :
  (forall s, Redis.db (c s).2 = Redis.db s /\ Redis.now (c s).2 = Redis.now s) ->
  read_only (Client.execute_command c).
Proof. intros Hc w. rewrite execute_command_run. apply Hc. Qed.

Lemma read_only_get (name : str) : read_only (Client.get name).
Proof.
  apply read_only_bind; [apply read_only_pure|]. intros k.
  apply read_only_command. intros s. by rewrite get_reply.
Qed.

Lemma read_only_exists (name : str) : read_only (Client.exists_ name).
Proof.
  apply read_only_bind; [apply read_only_pure|]. intros k.
  apply read_only_command. intros s. by rewrite exists_reply.
Qed.

Lemma read_only_lrange (name : str) (a b : Z) :
  read_only (Client.lrange name a b).
Proof.
  apply read_only_bind; [apply read_only_pure|]. intros k.
  apply read_only_command. intros s. by rewrite lrange_reply.
Qed.

Lemma read_only_int (x : option bytes) : read_only (@int_ world x).
Proof. destruct x as [b|]; [|done]. unfold int_. by destruct (int_of_bytes b). Qed.

Lemma read_only_decode (b : bytes) : read_only (@decode world b).
Proof. unfold decode. by destruct (bytes_decode b). Qed.

Lemma read_only_decode_ (x : option bytes) : read_only (@decode_ world x).
Proof. destruct x as [b|]; [apply read_only_decode | done]. Qed.

Lemma read_only_for_each {A} (l : list A) (body : A -> IO unit) :
  (forall x, read_only (body x)) -> read_only (Exercise.for_each l body).
Proof.
  intros Hbody. induction l as [|x l IH]; [done|].
  cbn [Exercise.for_each]. apply read_only_bind; [apply Hbody | done].
Qed.

Lemma read_only_get_with (self : Exercise.object) (key : str)
    (fn : option (option bytes -> IO value)) :
  (forall f x, fn = Some f -> read_only (f x)) ->
  read_only (Exercise.get self key fn).
Proof.
  intros Hfn. unfold Exercise.get.
  apply read_only_bind.
  { unfold Exercise.attr_redis. by destruct (Exercise._redis self). }
  intros r. apply read_only_bind.
  { destruct r; [apply read_only_get | done]. }
  intros data. destruct fn as [f|]; [by apply Hfn | done].
Qed.

(** X5.  The three accessors only read: whatever the instance, the key
    and the outcome, [get] without a transform, [get_str] and [get_int]
    leave the keyspace and the clock as they were. *)
Theorem accessors_read_only (self : Exercise.object) (key : str) :
  read_only (Exercise.get self key None)
  /\ read_only (Exercise.get_str self key)
  /\ read_only (Exercise.get_int self key).
Proof.
  split; [|split]; apply read_only_get_with; try done.
  - intros f x [= <-]. apply read_only_bind; [apply read_only_decode_ | done].
  - intros f x [= <-]. apply read_only_bind; [apply read_only_int | done].
Qed.

(** X6.  [replay] only reads: whatever it is handed and whatever it
    comes to, it leaves the keyspace and the clock as they were. *)
Theorem replay_read_only (fn : Exercise.callable) :
  read_only (Exercise.replay fn).
Proof.
  destruct fn as [|q|[[[]|]] q]; try done.
  unfold Exercise.replay. cbn [Exercise._redis].
  apply read_only_bind; [apply read_only_exists|]. intros present.
  apply read_only_bind.
  { destruct (negb _); [|done].
    apply read_only_bind; [apply read_only_get | apply read_only_int]. }
  intros n. apply read_only_bind; [apply read_only_print|]. intros _.
  apply read_only_bind; [apply read_only_lrange|]. intros ins.
  apply read_only_bind; [apply read_only_lrange|]. intros outs.
  apply read_only_for_each. intros [i o].
  apply read_only_bind; [apply read_only_decode|]. intros shown.
  apply read_only_print.
Qed.

(** ** What a call of [store] leaves behind *)

Section StoreOutcome.
Context `{UnicodeData}.
Hypothesis printable_scalar : forall c, isprintable c = true -> is_scalar c = true.





(** X9.  A call of [store] touches four keys at most: the counter, the
    two histories and the new identifier.  Every other key, a value
    stored earlier for one, holds after the call what it held before. *)
Theorem store_touches_only (args : list value) (kwargs : list (str * value))
    (k' : bytes) (w : world) :
  k' <> store_key -> k' <> inputs_key -> k' <> outputs_key ->
  encode_str (lit (next_key w)) <> Return k' ->
  Redis.lookup k'
    (redis (Exercise.invoke Exercise.store cache args kwargs w).2)
  = Redis.lookup k' (redis w).
Proof using printable_scalar.
  intros H1 H2 H3 H4.
  destruct (tuple_str_encodable printable_scalar args) as [i Hi].
  rewrite (store_run _ _ _ _ Hi). cbv zeta.
  destruct (Redis.rpush inputs_key i (redis w)).1;
    cbn [snd redis with_redis]; [by rewrite rpush_frame|].
  destruct (Redis.incr store_key _).1;
    cbn [snd redis with_redis]; [by rewrite incr_frame, rpush_frame|].
  destruct (Exercise.bind_data args kwargs) as [data|e];
    cbn [snd redis with_redis]; [|by rewrite incr_frame, rpush_frame].
  destruct (encode_str (lit (next_key w))) as [k|e];
    [destruct (Client.encoder_encode data) as [b|e]|];
    cbn [snd redis drawn]; try (by rewrite incr_frame, rpush_frame).
  rewrite rpush_frame, set_frame, incr_frame, rpush_frame; try done.
  by intros ->.
Qed.

End StoreOutcome.



Lemma store_touches_only_witness :
  Redis.lookup "00000000-0000-4000-8000-000000000007"
    (redis (Exercise.invoke (@Exercise.store ascii_printable) cache
              [VInt 7] [] stored_once).2)
  = Redis.lookup "00000000-0000-4000-8000-000000000007" (redis stored_once).
Proof.
  refine (@store_touches_only ascii_printable ascii_printable_scalar
            [VInt 7] [] "00000000-0000-4000-8000-000000000007" stored_once
            _ _ _ _).
  - discriminate.
  - discriminate.
  - discriminate.
  - vm_compute. discriminate.
Defined.

(** ** A whole session *)




Section Session.
Context `{UnicodeData}.
Hypothesis printable_scalar : forall c, isprintable c = true -> is_scalar c = true.





End Session.


(** * Further properties of web.py *)

Lemma latency_nonneg (e : exchange) : (0 <= latency_of e)%Z.
Proof. destruct e; cbn; lia. Qed.

Lemma lookup_setex_other (k v k' : bytes) (t : Z) (s : Redis.server) :
  k' <> k -> Redis.lookup k' (Redis.setex k t v s).2 = Redis.lookup k' s.
Proof.
  intros Hk. unfold Redis.setex. destruct (t <=? 0)%Z; cbn [snd]; [done|].
  rewrite lookup_with_db_insert. by destruct (decide (k = k')).
Qed.

(** Time passing makes no absent key appear. *)
Lemma lookup_elapse_absent (k : bytes) (d : Z) (s : Redis.server) :
  (0 <= d)%Z -> Redis.lookup k s = None ->
  Redis.lookup k (Redis.elapse d s) = None.
Proof.
  intros Hd. unfold Redis.lookup, Redis.elapse, Redis.expired.
  cbn [Redis.db Redis.now].
  destruct (Redis.db s !! k) as [[v [t|]]|]; cbn [Redis.e_expire]; try done.
  destruct (Z.ltb_spec t (Redis.now s)); [|done].
  by destruct (Z.ltb_spec t (Redis.now s + d)); [|lia].
Qed.

Lemma access_count_elapse (k : bytes) (n d : Z) (s : Redis.server) :
  (0 <= d)%Z -> access_count k s = Some n ->
  access_count k (Redis.elapse d s) = Some n.
Proof.
  intros Hd. unfold access_count.
  destruct (Redis.lookup k s) as [[[b|l] [t|]]|] eqn:Hk; try done.
  - by rewrite (lookup_elapse_persistent _ _ _ _ Hk).
  - by rewrite (lookup_elapse_absent _ _ _ Hd Hk).
Qed.

Lemma access_count_frame (k : bytes) (s s' : Redis.server) :
  Redis.lookup k s' = Redis.lookup k s -> access_count k s' = access_count k s.
Proof. unfold access_count. by intros ->. Qed.

Lemma str_encode_app_None (s1 s2 : str) :
  str_encode s2 = None -> str_encode (s1 ++ s2) = None.
Proof.
  unfold str_encode. rewrite forallb_app.
  destruct (forallb is_scalar s2); [done|]. by rewrite andb_false_r.
Qed.

(** X11.  A url that UTF-8 cannot carry (one with a lone surrogate) is
    refused before anything is sent: [get_page] raises
    UnicodeEncodeError, and no counter is touched, no request made. *)
Theorem get_page_unencodable (u : str) (w : world) :
  str_encode u = None ->
  Web.get_page u w = (Raise UnicodeEncodeError, w).
Proof.
  intros Hu. unfold Web.get_page, Web.data_cacher.
  unfold bind at 1. unfold Client.incr. unfold bind at 1.
  unfold encode, lift, encode_str. by rewrite (str_encode_app_None _ _ Hu).
Qed.

Lemma get_page_unencodable_witness :
  Web.get_page [0x61%N; 0xDC80%N] (boot (serving (lit "hello")))
  = (Raise UnicodeEncodeError, boot (serving (lit "hello"))).
Proof.
  apply (get_page_unencodable [0x61%N; 0xDC80%N]
           (boot (serving (lit "hello")))).
  reflexivity.
Defined.

(** X12.  On a cache hit the wrapped function is not run at all: the
    decorated function returns the decoded entry whatever function was
    decorated, sends the increment and the read and nothing else, makes
    no request, and leaves the entry with the expiry it had (a hit does
    not renew it). *)
Theorem data_cacher_hit (method : str -> IO str) (u page : str)
    (ku b : bytes) (ex : option Z) (n : Z) (w : world) :
  encode_str u = Return ku ->
  access_count (count_key ku) (redis w) = Some n -> n <> Redis.LLONG_MAX ->
  Redis.lookup (result_key ku) (redis w)
  = Some (Redis.Entry (Redis.RString b) ex) ->
  b <> EmptyString -> bytes_decode b = Some page ->
  let w' :=
    with_redis
      (Redis.received (Redis.GET (result_key ku))
         (Redis.incr (count_key ku) (redis w)).2) w in
  Web.data_cacher method u w = (Return page, w')
  /\ commands_of (Web.data_cacher method u) w
     = [Redis.INCR (count_key ku); Redis.GET (result_key ku)]
  /\ Redis.lookup (result_key ku) (redis w')
     = Some (Redis.Entry (Redis.RString b) ex).
Proof.
  intros Hu Hn Hmax Hrk Hb Hpage.
  destruct (incr_access _ _ _ Hn Hmax) as (Hr1 & _ & _ & _ & Hlog).
  assert (Redis.lookup (result_key ku) (Redis.incr (count_key ku) (redis w)).2
          = Some (Redis.Entry (Redis.RString b) ex)) as Hrk1.
  { rewrite <- Hrk. apply incr_frame. intros Heq.
    by apply (count_result_keys ku ku). }
  assert (Web.data_cacher method u w
          = (Return page,
             with_redis
               (Redis.received (Redis.GET (result_key ku))
                  (Redis.incr (count_key ku) (redis w)).2) w)) as Hrun.
  { unfold Web.data_cacher. unfold bind at 1. unfold Client.incr.
    rewrite (keyed_run _ _ _ _ (encode_count_key _ _ Hu)), Hr1.
    cbn [reported]. unfold bind at 1. unfold Client.get.
    rewrite (keyed_run _ _ _ _ (encode_result_key _ _ Hu)).
    rewrite redis_with_redis, with_redis_twice, get_reply, Hrk1.
    cbn [fst snd reported]. rewrite truthy_nonempty by done.
    cbn [decode_]. unfold decode. by rewrite Hpage. }
  cbv zeta. split; [done|]. split; [|done].
  unfold commands_of. rewrite Hrun. cbn [snd redis with_redis Redis.log
    Redis.received]. rewrite Hlog, <- app_assoc. apply drop_log.
Qed.

Lemma data_cacher_hit_witness :
  let w := (Web.get_page example_url (boot (serving (lit "hello")))).2 in
  let w' :=
    with_redis
      (Redis.received (Redis.GET (result_key "http://example.org/"))
         (Redis.incr (count_key "http://example.org/") (redis w)).2) w in
  Web.data_cacher (fun _ => raise TypeError) example_url w
  = (Return (lit "hello"), w')
  /\ commands_of (Web.data_cacher (fun _ => raise TypeError) example_url) w
     = [Redis.INCR (count_key "http://example.org/");
        Redis.GET (result_key "http://example.org/")]
  /\ Redis.lookup (result_key "http://example.org/") (redis w')
     = Some (Redis.Entry (Redis.RString "hello") (Some 11%Z)).
Proof.
  apply (data_cacher_hit (fun _ => raise TypeError) example_url (lit "hello")
           "http://example.org/" "hello" (Some 11%Z) 1
           (Web.get_page example_url (boot (serving (lit "hello")))).2);
    try reflexivity; discriminate.
Defined.

(** X13.  Once the ten time units are over the entry is gone: a second
    call more than ten units after the first makes a second request and
    returns what that request yields, which need not be what the first
    one did. *)
Theorem get_page_expires (u : str) (ku pb1 pb2 : bytes) (d : Z) (w : world) :
  encode_str u = Return ku ->
  access_count (count_key ku) (redis w) = Some 0%Z ->
  miss (result_key ku) (redis w) ->
  encode_str (page_of (network w (length (requested w)) u)) = Return pb1 ->
  encode_str (page_of (network w (S (length (requested w))) u)) = Return pb2 ->
  (10 < d)%Z ->
  exists w',
    fetch_twice u d w
    = (Return (page_of (network w (length (requested w)) u),
               page_of (network w (S (length (requested w))) u)), w')
    /\ requested w' = requested w ++ [u; u]
    /\ access_count (count_key ku) (redis w') = Some 2%Z.
Proof.
  intros Hu Hn Hmiss Hpb1 Hpb2 Hd.
  destruct (get_page_miss u ku pb1 0 w Hu Hn ltac:(done) Hmiss Hpb1)
    as (w1 & Hrun1 & Hreq1 & Hnet1 & _ & Hck1 & Hrk1 & _).
  unfold fetch_twice. unfold bind at 1.
  change (next_exchange u w) with (network w (length (requested w)) u) in Hrun1.
  rewrite Hrun1. unfold bind at 1. cbn [sleep].
  set (w2 := with_redis (Redis.elapse d (redis w1)) w1).
  assert (access_count (count_key ku) (redis w2) = Some 1%Z) as Hn2.
  { by apply access_count_written. }
  assert (miss (result_key ku) (redis w2)) as Hmiss2.
  { left. unfold Redis.lookup, Redis.expired.
    cbn [w2 redis with_redis Redis.elapse Redis.db Redis.now].
    rewrite Hrk1. cbn [Redis.e_expire].
    by destruct (Z.ltb_spec (Redis.now (redis w1) + 10)
                   (Redis.now (redis w1) + d)); [|lia]. }
  assert (next_exchange u w2 = network w (S (length (requested w))) u) as Hex2.
  { unfold next_exchange. cbn [w2 network requested with_redis].
    rewrite Hnet1, Hreq1, length_app. cbn [length].
    by rewrite Nat.add_1_r. }
  rewrite <- Hex2 in Hpb2 |- *.
  destruct (get_page_miss u ku pb2 1 w2 Hu Hn2 ltac:(done) Hmiss2 Hpb2)
    as (w3 & Hrun2 & Hreq2 & _ & _ & Hck3 & _).
  unfold bind at 1. rewrite Hrun2. cbn [ret]. exists w3.
  split; [done|]. split.
  - rewrite Hreq2. cbn [w2 requested with_redis]. rewrite Hreq1.
    by rewrite <- app_assoc.
  - by apply access_count_written.
Qed.

Lemma get_page_expires_witness :
  exists w',
    fetch_twice example_url 11 (boot (serving (lit "hello")))
    = (Return (page_of (serving (lit "hello") 0 example_url),
               page_of (serving (lit "hello") 1 example_url)), w')
    /\ requested w' = requested (boot (serving (lit "hello")))
                      ++ [example_url; example_url]
    /\ access_count (count_key "http://example.org/") (redis w') = Some 2%Z.
Proof.
  apply (get_page_expires example_url "http://example.org/" "hello" "hello"
           11 (boot (serving (lit "hello")))); try reflexivity.
  left. reflexivity.
Defined.

(** X14.  A call for one url leaves the access counter of every other
    url where it was, whether the call hits, misses or fails. *)
Theorem get_page_other_counter (u u' : str) (ku ku' : bytes) (n : Z)
    (w : world) :
  encode_str u = Return ku -> encode_str u' = Return ku' -> u <> u' ->
  access_count (count_key ku') (redis w) = Some n ->
  access_count (count_key ku') (redis (Web.get_page u w).2) = Some n.
Proof.
  intros Hu Hu' Hne Hn.
  assert (ku' <> ku) as Hk.
  { intros ->. apply Hne. unfold encode_str in Hu, Hu'.
    destruct (str_encode u) as [b|] eqn:Hb; [|done].
    destruct (str_encode u') as [b'|] eqn:Hb'; [|done].
    injection Hu as ->. injection Hu' as ->. by eapply str_encode_inj. }
  assert (count_key ku' <> count_key ku) as Hck.
  { unfold count_key. cbn. by intros [=]. }
  assert (count_key ku' <> result_key ku) as Hrk
    by apply count_result_keys.
  rewrite (get_page_run _ _ _ Hu). cbv zeta.
  set (s1 := (Redis.incr (count_key ku) (redis w)).2).
  assert (access_count (count_key ku') s1 = Some n) as Hn1.
  { rewrite <- Hn. apply access_count_frame. by apply incr_frame. }
  destruct (Redis.incr (count_key ku) (redis w)).1; [done|].
  rewrite get_reply. cbn [fst snd].
  destruct (Redis.lookup (result_key ku) s1) as [[[b|l] ex]|]; [| done |].
  - destruct (Web.truthy (Some b)).
    + cbn [decode_]. unfold decode. by destruct (bytes_decode b).
    + destruct (encode_str (page_of (next_exchange u w)));
        cbn [snd fetched redis with_redis].
      * rewrite (access_count_frame _ _ _ (lookup_setex_other _ _ _ _ _ Hrk)).
        apply access_count_elapse; [apply latency_nonneg | done].
      * apply access_count_elapse; [apply latency_nonneg | done].
  - cbn [Web.truthy].
    destruct (encode_str (page_of (next_exchange u w)));
      cbn [snd fetched redis with_redis].
    + rewrite (access_count_frame _ _ _ (lookup_setex_other _ _ _ _ _ Hrk)).
      apply access_count_elapse; [apply latency_nonneg | done].
    + apply access_count_elapse; [apply latency_nonneg | done].
Qed.

Lemma get_page_other_counter_witness :
  access_count (count_key "http://example.org/")
    (redis (Web.get_page (lit "http://other.example/")
              (Web.get_page example_url (boot (serving (lit "hello")))).2).2)
  = Some 1%Z.
Proof.
  apply (get_page_other_counter (lit "http://other.example/") example_url
           "http://other.example/" "http://example.org/" 1
           (Web.get_page example_url (boot (serving (lit "hello")))).2);
    try reflexivity.
  discriminate.
Defined.


(** X16.  An entry that is not valid UTF-8 makes [get_page] raise
    UnicodeDecodeError: the call is counted, no request is made and the
    entry stays as it is, so that every call fails alike until the entry
    expires. *)
Theorem get_page_undecodable (u : str) (ku b : bytes) (ex : option Z)
    (n : Z) (w : world) :
  encode_str u = Return ku ->
  access_count (count_key ku) (redis w) = Some n -> n <> Redis.LLONG_MAX ->
  Redis.lookup (result_key ku) (redis w)
  = Some (Redis.Entry (Redis.RString b) ex) ->
  b <> EmptyString -> bytes_decode b = None ->
  exists w',
    Web.get_page u w = (Raise UnicodeDecodeError, w')
    /\ requested w' = requested w
    /\ access_count (count_key ku) (redis w') = Some (n + 1)%Z
    /\ Redis.lookup (result_key ku) (redis w')
       = Some (Redis.Entry (Redis.RString b) ex).
Proof.
  intros Hu Hn Hmax Hrk Hb Hbad.
  pose proof (get_page_counts u ku n w Hu Hn Hmax) as Hcount.
  destruct (incr_access _ _ _ Hn Hmax) as (Hr1 & _).
  assert (Redis.lookup (result_key ku) (Redis.incr (count_key ku) (redis w)).2
          = Some (Redis.Entry (Redis.RString b) ex)) as Hrk1.
  { rewrite <- Hrk. apply incr_frame. intros Heq.
    by apply (count_result_keys ku ku). }
  rewrite (get_page_run _ _ _ Hu) in Hcount |- *. cbv zeta in Hcount |- *.
  rewrite Hr1, get_reply, Hrk1 in Hcount |- *. cbn [fst snd] in Hcount |- *.
  rewrite truthy_nonempty in Hcount |- * by done.
  cbn [decode_] in Hcount |- *. unfold decode in Hcount |- *.
  rewrite Hbad in Hcount |- *. eexists. split; [reflexivity|].
  by repeat split.
Qed.

Lemma get_page_undecodable_witness :
  let w :=
    with_redis
      (Redis.set (result_key "http://example.org/") (pack [0xFF%N])
         (redis (boot (serving (lit "hello"))))).2
      (boot (serving (lit "hello"))) in
  exists w',
    Web.get_page example_url w = (Raise UnicodeDecodeError, w')
    /\ requested w' = requested w
    /\ access_count (count_key "http://example.org/") (redis w')
       = Some (0 + 1)%Z
    /\ Redis.lookup (result_key "http://example.org/") (redis w')
       = Some (Redis.Entry (Redis.RString (pack [0xFF%N])) None).
Proof.
  apply (get_page_undecodable example_url "http://example.org/"
           (pack [0xFF%N]) None 0); try reflexivity; discriminate.
Defined.
